(** * Local (in-process) transport: registry, server endpoint, client endpoint

    A shallow embedding of

    - [LocalTransportRegistry]  (shared/local.ts),
    - [LocalServerTransport]    (server/local.ts),
    - [LocalClientTransport]    (client/local.ts),

    as state-passing functions over one [World]: the singleton registry
    table, the zero-delay timer queue of the event loop, the heap of
    transport objects and the log of observer invocations. *)

From stdpp Require Import base option list gmap strings.
From Stdlib Require Import Ascii.
From Stdlib Require HexString.

(** ** Errors thrown by the transports *)

Inductive Error :=
| ServerAlreadyStarted
| ClientAlreadyStarted
| NotConnected
| NoClientConnected
| NoServerTransportProvided
| NoServerTransportConnected
| TransportNotFound (targetId : string)
| DanglingReference
| ThrownByObserver (reason : string).

(** The text handed to [new Error(...)] at each [throw].
    [DanglingReference] has no counterpart in the source: it is what a
    method of the model answers on an object index that no constructor
    returned. [ThrownByObserver] is no error of the transports either: it
    stands for what an observer function of the owner throws when a
    transport calls it, known by its message. *)
Definition error_message (e : Error) : string :=
  match e with
  | ServerAlreadyStarted =>
      "LocalServerTransport already started! If using Server class, note that connect() calls start() automatically."
  | ClientAlreadyStarted =>
      "LocalClientTransport already started! If using Client class, note that connect() calls start() automatically."
  | NotConnected => "Not connected"
  | NoClientConnected => "No client connected"
  | NoServerTransportProvided => "No server transport provided"
  | NoServerTransportConnected => "No server transport connected"
  | TransportNotFound targetId => "Transport with ID " +:+ targetId +:+ " not found"
  | DanglingReference => "dangling reference"
  | ThrownByObserver reason => reason
  end.

(** The error taxonomy of the design document, and the class each thrown
    error falls in. *)
Inductive ErrorKind :=
| AlreadyStartedKind
| NotConnectedKind
| PeerUnavailableKind
| MissingPeerHandleKind.

Definition error_kind (e : Error) : option ErrorKind :=
  match e with
  | ServerAlreadyStarted | ClientAlreadyStarted => Some AlreadyStartedKind
  | NotConnected => Some NotConnectedKind
  | NoClientConnected | TransportNotFound _ => Some PeerUnavailableKind
  | NoServerTransportProvided | NoServerTransportConnected => Some MissingPeerHandleKind
  | DanglingReference => None
  | ThrownByObserver _ => None
  end.

(** ** Objects *)

(** An observer function installed by the owner of a transport, known by
    its name only: the transports never look inside it. *)
Definition Handler := nat.

(** A reference to a transport object: an index into the heap of its class. *)
Inductive Endpoint :=
| ServerRef (i : nat)
| ClientRef (j : nat).

Global Instance Endpoint_eq_dec : EqDecision Endpoint.
Proof. solve_decision. Defined.

(** The arrow function both constructors register:
    [(message) => { this.onmessage?.(message); }], a closure over [this]. *)
Inductive Forwarder :=
| ForwardTo (this : Endpoint).

Global Instance Forwarder_eq_dec : EqDecision Forwarder.
Proof. solve_decision. Defined.

(** The value type of [transportMap]: [{ onmessage?: (message) => void }]. *)
Record Callbacks := mkCallbacks { cb_onmessage : option Forwarder }.

Global Instance Callbacks_eq_dec : EqDecision Callbacks.
Proof. solve_decision. Defined.

Record LocalServerTransport := mkServer {
  srv_connected : bool;
  srv_sessionId : string;
  srv_clientId : option string;
  srv_onclose : option Handler;
  srv_onerror : option Handler;
  srv_onmessage : option Handler
}.

Record LocalClientTransport := mkClient {
  cli_connected : bool;
  cli_sessionId : string;
  cli_serverTransport : option nat;
  cli_onclose : option Handler;
  cli_onerror : option Handler;
  cli_onmessage : option Handler
}.

Definition srv_set_connected (b : bool) (s : LocalServerTransport) :=
  mkServer b (srv_sessionId s) (srv_clientId s) (srv_onclose s) (srv_onerror s) (srv_onmessage s).
Definition srv_set_clientId (c : option string) (s : LocalServerTransport) :=
  mkServer (srv_connected s) (srv_sessionId s) c (srv_onclose s) (srv_onerror s) (srv_onmessage s).
Definition srv_set_onclose (h : option Handler) (s : LocalServerTransport) :=
  mkServer (srv_connected s) (srv_sessionId s) (srv_clientId s) h (srv_onerror s) (srv_onmessage s).
Definition srv_set_onerror (h : option Handler) (s : LocalServerTransport) :=
  mkServer (srv_connected s) (srv_sessionId s) (srv_clientId s) (srv_onclose s) h (srv_onmessage s).
Definition srv_set_onmessage (h : option Handler) (s : LocalServerTransport) :=
  mkServer (srv_connected s) (srv_sessionId s) (srv_clientId s) (srv_onclose s) (srv_onerror s) h.

Definition cli_set_connected (b : bool) (c : LocalClientTransport) :=
  mkClient b (cli_sessionId c) (cli_serverTransport c) (cli_onclose c) (cli_onerror c) (cli_onmessage c).
Definition cli_set_onclose (h : option Handler) (c : LocalClientTransport) :=
  mkClient (cli_connected c) (cli_sessionId c) (cli_serverTransport c) h (cli_onerror c) (cli_onmessage c).
Definition cli_set_onerror (h : option Handler) (c : LocalClientTransport) :=
  mkClient (cli_connected c) (cli_sessionId c) (cli_serverTransport c) (cli_onclose c) h (cli_onmessage c).
Definition cli_set_onmessage (h : option Handler) (c : LocalClientTransport) :=
  mkClient (cli_connected c) (cli_sessionId c) (cli_serverTransport c) (cli_onclose c) (cli_onerror c) h.

(** ** generateUUID (shared/utils.ts) *)

(** [v.toString(16)] for a non-negative integer [v]. *)
Definition toString16 (v : N) : string :=
  match v with
  | N0 => "0"
  | Npos p => HexString.Raw.of_pos p ""
  end.

Definition uuid_template : string := "xxxxxxxx-xxxx-4xxx-yxxx-xxxxxxxxxxxx".

(** The callback handed to [replace]: [c] is the character matched and [r]
    the value of [Math.random() * 16 | 0]. *)
Definition uuid_digit (c : Ascii.ascii) (r : N) : string :=
  let v := if decide (c = "x"%char) then r else N.lor (N.land r 3) 8 in
  toString16 v.

(** [template.replace(/[xy]/g, callback)]: the matches are taken from left
    to right and [random k] is what the [k]-th call of the callback draws. *)
Fixpoint replace_xy (template : string) (random : nat → N) (k : nat) : string :=
  match template with
  | EmptyString => EmptyString
  | String c rest =>
      if decide (c = "x"%char ∨ c = "y"%char)
      then uuid_digit c (random k) +:+ replace_xy rest random (S k)
      else String c (replace_xy rest random k)
  end.

(** [randomUUID] is the value of [crypto.randomUUID()] where the platform
    has it, [None] where it has not. *)
Definition generateUUID (randomUUID : option string) (random : nat → N) : string :=
  match randomUUID with
  | Some uuid => uuid
  | None => replace_xy uuid_template random 0
  end.

Definition is_hex (c : Ascii.ascii) : bool :=
  bool_decide (c ∈ String.list_ascii_of_string "0123456789abcdef").

Definition is_variant (c : Ascii.ascii) : bool :=
  bool_decide (c ∈ String.list_ascii_of_string "89ab").

Fixpoint conforms (template out : string) : bool :=
  match template, out with
  | EmptyString, EmptyString => true
  | String c t, String d o =>
      (if decide (c = "x"%char) then is_hex d
       else if decide (c = "y"%char) then is_variant d
       else bool_decide (d = c)) && conforms t o
  | _, _ => false
  end.

(** What [conforms] asks of the character [d] that stands where the
    template has [c]. *)
Definition conforms_at (c d : Ascii.ascii) : Prop :=
  if decide (c = "x"%char) then is_hex d = true
  else if decide (c = "y"%char) then is_variant d = true
  else d = c.

(** Two sequences of draws that [replace_xy] cannot tell apart: the same
    draw at every [x], the same two low bits at every [y]. *)
Fixpoint same_digits (template : string) (r r' : nat → N) (k : nat) : Prop :=
  match template with
  | EmptyString => True
  | String c t =>
      if decide (c = "x"%char) then r k = r' k ∧ same_digits t r r' (S k)
      else if decide (c = "y"%char)
           then N.land (r k) 3 = N.land (r' k) 3 ∧ same_digits t r r' (S k)
           else same_digits t r r' k
  end.

Section Transport.

(** [JSONRPCMessage] is declared in types.ts; the transports carry it
    without reading it, so it stays a parameter. *)
Context {JSONRPCMessage : Type}.

(** One invocation of an observer: which function, installed on which
    transport, with which argument. The transports call an observer as the
    last thing they do ([onclose] after the state change of [close()],
    [onmessage] as the whole body of a timer task), so whatever the observer
    does in turn is an operation of the owner that follows the call. An
    observer that throws instead of returning is taken up where it reaches
    a caller, in [close_with] below. *)
Inductive Event :=
| OnMessage (this : Endpoint) (h : Handler) (message : JSONRPCMessage)
| OnClose (this : Endpoint) (h : Handler).

(** A task handed to [setTimeout(..., 0)] by the registry:
    [() => { target.onmessage?.(message); }]. *)
Definition Task : Type := Callbacks * JSONRPCMessage.

Record World := mkWorld {
  transportMap : gmap string Callbacks;
  timers : list Task;
  servers : list LocalServerTransport;
  clients : list LocalClientTransport;
  trace : list Event
}.

Definition initial : World := mkWorld ∅ [] [] [] [].

Definition with_transportMap (f : gmap string Callbacks → gmap string Callbacks) (w : World) :=
  mkWorld (f (transportMap w)) (timers w) (servers w) (clients w) (trace w).
Definition with_timers (f : list Task → list Task) (w : World) :=
  mkWorld (transportMap w) (f (timers w)) (servers w) (clients w) (trace w).
Definition with_servers (f : list LocalServerTransport → list LocalServerTransport) (w : World) :=
  mkWorld (transportMap w) (timers w) (f (servers w)) (clients w) (trace w).
Definition with_clients (f : list LocalClientTransport → list LocalClientTransport) (w : World) :=
  mkWorld (transportMap w) (timers w) (servers w) (f (clients w)) (trace w).
Definition with_trace (f : list Event → list Event) (w : World) :=
  mkWorld (transportMap w) (timers w) (servers w) (clients w) (f (trace w)).

(** ** Methods as state-passing computations

    A method either returns or throws; the world it leaves behind is kept
    in both cases, as a JavaScript exception undoes nothing. *)

Inductive Completion (A : Type) :=
| Returned (a : A)
| Thrown (e : Error).
Global Arguments Returned {A} a.
Global Arguments Thrown {A} e.

Definition M (A : Type) : Type := World → Completion A * World.

Definition ret {A} (a : A) : M A := λ w, (Returned a, w).
Definition throw {A} (e : Error) : M A := λ w, (Thrown e, w).
Definition bind {A B} (m : M A) (k : A → M B) : M B :=
  λ w, match m w with
       | (Returned a, w') => k a w'
       | (Thrown e, w') => (Thrown e, w')
       end.
Definition get : M World := λ w, (Returned w, w).
Definition complete {A} (c : Completion A) : M A := λ w, (c, w).
Definition modify (f : World → World) : M unit := λ w, (Returned tt, f w).

Notation "'do' x <- m ; k" := (bind m (λ x, k))
  (at level 10, x name, m at level 100, k at level 200,
   format "'[v' 'do'  x  <-  m ; '/' k ']'").
Notation "m ;;; k" := (bind m (λ _, k))
  (at level 100, k at level 200, right associativity).

Definition server_at (this : nat) : M LocalServerTransport :=
  do w <- get;
  match servers w !! this with
  | Some s => ret s
  | None => throw DanglingReference
  end.

Definition client_at (this : nat) : M LocalClientTransport :=
  do w <- get;
  match clients w !! this with
  | Some c => ret c
  | None => throw DanglingReference
  end.

(** An assignment to a field of the object [this]. *)
Definition update_server (this : nat) (f : LocalServerTransport → LocalServerTransport) : M unit :=
  modify (with_servers (alter f this)).

Definition update_client (this : nat) (f : LocalClientTransport → LocalClientTransport) : M unit :=
  modify (with_clients (alter f this)).

Definition emit (ev : Event) : M unit := modify (with_trace (λ t, t ++ [ev])).

(** [setTimeout(task, 0)]: zero-delay timers fire in the order they were
    set, so the pending ones form a queue. *)
Definition setTimeout (task : Task) : M unit := modify (with_timers (λ q, q ++ [task])).

(** *** LocalTransportRegistry *)

Definition registry_register (id : string) (callbacks : Callbacks) : M unit :=
  modify (with_transportMap (insert id callbacks)).

Definition registry_unregister (id : string) : M unit :=
  modify (with_transportMap (delete id)).

Definition registry_send (targetId : string) (message : JSONRPCMessage) : M unit :=
  do w <- get;
  match transportMap w !! targetId with
  | None => throw (TransportNotFound targetId)
  | Some target => setTimeout (target, message)
  end.

(** *** Observers *)

Definition onmessage_of (w : World) (e : Endpoint) : option Handler :=
  match e with
  | ServerRef i => servers w !! i ≫= srv_onmessage
  | ClientRef j => clients w !! j ≫= cli_onmessage
  end.

(** [this.onmessage?.(message)] *)
Definition forward (this : Endpoint) (message : JSONRPCMessage) : M unit :=
  do w <- get;
  match onmessage_of w this with
  | Some h => emit (OnMessage this h message)
  | None => ret tt
  end.

(** The body of a timer task: [target.onmessage?.(message)]. *)
Definition run_task (task : Task) : M unit :=
  match cb_onmessage task.1 with
  | Some (ForwardTo this) => forward this task.2
  | None => ret tt
  end.

(** [this.onclose?.()] with the completion of the observer made explicit:
    [outcome h] is how a call of the observer [h] completes. An observer is
    a function of the owner and may throw; the call is logged, and what the
    observer throws is thrown by the calling method, as no [try] surrounds
    the call. *)
Definition call_onclose (outcome : Handler → Completion unit) (this : Endpoint)
    (onclose : option Handler) : M unit :=
  match onclose with
  | Some h => emit (OnClose this h);;; complete (outcome h)
  | None => ret tt
  end.

(** One turn of the event loop: the oldest pending timer fires. *)
Definition tick : M unit :=
  do w <- get;
  match timers w with
  | [] => ret tt
  | task :: rest => modify (with_timers (λ _, rest));;; run_task task
  end.

Fixpoint ticks (n : nat) : M unit :=
  match n with
  | O => ret tt
  | S n => tick;;; ticks n
  end.

(** The event loop runs until no timer is pending. *)
Definition drain : M unit :=
  do w <- get; ticks (length (timers w)).

(** *** LocalServerTransport *)

(** [id || generateUUID()], where [uuid] is what [generateUUID()] gives
    when it is called: an absent and an empty [id] are both falsy. *)
Definition server_sessionId (id : option string) (uuid : string) : string :=
  match id with
  | Some s => if decide (s = "") then uuid else s
  | None => uuid
  end.

Definition new_LocalServerTransport (id : option string) (uuid : string) : M nat :=
  let sessionId := server_sessionId id uuid in
  do w <- get;
  let this := length (servers w) in
  modify (with_servers (λ l, l ++ [mkServer false sessionId None None None None]));;;
  registry_register sessionId (mkCallbacks (Some (ForwardTo (ServerRef this))));;;
  ret this.

Definition server_start (this : nat) : M unit :=
  do s <- server_at this;
  if srv_connected s then throw ServerAlreadyStarted
  else update_server this (srv_set_connected true).

Definition server_send (this : nat) (message : JSONRPCMessage) : M unit :=
  do s <- server_at this;
  if negb (srv_connected s) then throw NotConnected
  else match srv_clientId s with
       | None => throw NoClientConnected
       | Some clientId =>
           if decide (clientId = "") then throw NoClientConnected
           else registry_send clientId message
       end.

(** [close()] when the observer it calls returns, as the observers of the
    runs below do. *)
Definition server_close (this : nat) : M unit :=
  do s <- server_at this;
  if srv_connected s then
    registry_unregister (srv_sessionId s);;;
    update_server this (srv_set_connected false);;;
    match srv_onclose s with
    | Some h => emit (OnClose (ServerRef this) h)
    | None => ret tt
    end
  else ret tt.

(** [close()] with any observer: [this.onclose?.()] is its last statement,
    after [unregister] and [this._connected = false], so an observer that
    throws makes [close()] fail with both already done. *)
Definition server_close_with (outcome : Handler → Completion unit) (this : nat) : M unit :=
  do s <- server_at this;
  if srv_connected s then
    registry_unregister (srv_sessionId s);;;
    update_server this (srv_set_connected false);;;
    call_onclose outcome (ServerRef this) (srv_onclose s)
  else ret tt.

Definition server_setClientId (this : nat) (clientId : string) : M unit :=
  do _ <- server_at this;
  update_server this (srv_set_clientId (Some clientId)).

(** *** LocalClientTransport *)

Definition new_LocalClientTransport (uuid : string) (serverTransport : option nat) : M nat :=
  do w <- get;
  let this := length (clients w) in
  modify (with_clients (λ l, l ++ [mkClient false uuid serverTransport None None None]));;;
  registry_register uuid (mkCallbacks (Some (ForwardTo (ClientRef this))));;;
  ret this.

Definition client_start (this : nat) : M unit :=
  do c <- client_at this;
  if cli_connected c then throw ClientAlreadyStarted
  else match cli_serverTransport c with
       | None => throw NoServerTransportProvided
       | Some server =>
           server_setClientId server (cli_sessionId c);;;
           update_client this (cli_set_connected true)
       end.

Definition client_send (this : nat) (message : JSONRPCMessage) : M unit :=
  do c <- client_at this;
  if negb (cli_connected c) then throw NotConnected
  else match cli_serverTransport c with
       | None => throw NoServerTransportConnected
       | Some server =>
           do s <- server_at server;
           registry_send (srv_sessionId s) message
       end.

(** [close()] when the observer it calls returns. *)
Definition client_close (this : nat) : M unit :=
  do c <- client_at this;
  if cli_connected c then
    registry_unregister (cli_sessionId c);;;
    update_client this (cli_set_connected false);;;
    match cli_onclose c with
    | Some h => emit (OnClose (ClientRef this) h)
    | None => ret tt
    end
  else ret tt.

(** [close()] with any observer, as for the server. *)
Definition client_close_with (outcome : Handler → Completion unit) (this : nat) : M unit :=
  do c <- client_at this;
  if cli_connected c then
    registry_unregister (cli_sessionId c);;;
    update_client this (cli_set_connected false);;;
    call_onclose outcome (ClientRef this) (cli_onclose c)
  else ret tt.

(** ** The operations open to the owner of the transports *)

Definition start (e : Endpoint) : M unit :=
  match e with
  | ServerRef i => server_start i
  | ClientRef j => client_start j
  end.

Definition send (e : Endpoint) (message : JSONRPCMessage) : M unit :=
  match e with
  | ServerRef i => server_send i message
  | ClientRef j => client_send j message
  end.

Definition close (e : Endpoint) : M unit :=
  match e with
  | ServerRef i => server_close i
  | ClientRef j => client_close j
  end.

(** [close()] with any observer. The operation [Close] of the runs below
    is [close]: there the observers return. *)
Definition close_with (outcome : Handler → Completion unit) (e : Endpoint) : M unit :=
  match e with
  | ServerRef i => server_close_with outcome i
  | ClientRef j => client_close_with outcome j
  end.

(** Assignments to the public observer fields. *)
Definition set_onmessage (e : Endpoint) (h : option Handler) : M unit :=
  match e with
  | ServerRef i => update_server i (srv_set_onmessage h)
  | ClientRef j => update_client j (cli_set_onmessage h)
  end.

Definition set_onclose (e : Endpoint) (h : option Handler) : M unit :=
  match e with
  | ServerRef i => update_server i (srv_set_onclose h)
  | ClientRef j => update_client j (cli_set_onclose h)
  end.

Definition set_onerror (e : Endpoint) (h : option Handler) : M unit :=
  match e with
  | ServerRef i => update_server i (srv_set_onerror h)
  | ClientRef j => update_client j (cli_set_onerror h)
  end.

Inductive Op :=
| NewServer (id : option string) (uuid : string)
| NewClient (uuid : string) (serverTransport : option nat)
| Start (e : Endpoint)
| Send (e : Endpoint) (message : JSONRPCMessage)
| Close (e : Endpoint)
| SetOnMessage (e : Endpoint) (h : option Handler)
| SetOnClose (e : Endpoint) (h : option Handler)
| SetOnError (e : Endpoint) (h : option Handler)
| Dispatch (targetId : string) (message : JSONRPCMessage)
| Tick.

Definition step (op : Op) : M unit :=
  match op with
  | NewServer id uuid => new_LocalServerTransport id uuid;;; ret tt
  | NewClient uuid serverTransport => new_LocalClientTransport uuid serverTransport;;; ret tt
  | Start e => start e
  | Send e message => send e message
  | Close e => close e
  | SetOnMessage e h => set_onmessage e h
  | SetOnClose e h => set_onclose e h
  | SetOnError e h => set_onerror e h
  | Dispatch targetId message => registry_send targetId message
  | Tick => tick
  end.

Fixpoint run (ops : list Op) (w : World) : World :=
  match ops with
  | [] => w
  | op :: ops => run ops (step op w).2
  end.

(** ** Reading the state of a transport *)

Definition connected (w : World) (e : Endpoint) : option bool :=
  match e with
  | ServerRef i => srv_connected <$> servers w !! i
  | ClientRef j => cli_connected <$> clients w !! j
  end.

Definition sessionId (w : World) (e : Endpoint) : option string :=
  match e with
  | ServerRef i => srv_sessionId <$> servers w !! i
  | ClientRef j => cli_sessionId <$> clients w !! j
  end.

Definition onclose_of (w : World) (e : Endpoint) : option Handler :=
  match e with
  | ServerRef i => servers w !! i ≫= srv_onclose
  | ClientRef j => clients w !! j ≫= cli_onclose
  end.

(** The recorded peer: the client identifier a server sends to, the server
    handle a client holds. *)
Definition clientId_of (w : World) (i : nat) : option string :=
  servers w !! i ≫= srv_clientId.

Definition serverTransport_of (w : World) (j : nat) : option nat :=
  clients w !! j ≫= cli_serverTransport.

(** The registry entry an endpoint installs for itself. *)
Definition own_callbacks (e : Endpoint) : Callbacks :=
  mkCallbacks (Some (ForwardTo e)).

Definition registered (w : World) (e : Endpoint) : Prop :=
  ∃ id, sessionId w e = Some id ∧ transportMap w !! id = Some (own_callbacks e).

(** ** Histories *)

(** [happened P ops w]: running [ops] from [w], some operation satisfied
    [P] in the world it was applied to. *)
Fixpoint happened (P : Op → World → bool) (ops : list Op) (w : World) : bool :=
  match ops with
  | [] => false
  | op :: ops => P op w || happened P ops (step op w).2
  end.

Definition returned {A} (c : Completion A) : bool :=
  match c with
  | Returned _ => true
  | Thrown _ => false
  end.

(** A [start()] on [e] that does not throw. *)
Definition start_succeeds (e : Endpoint) (op : Op) (w : World) : bool :=
  match op with
  | Start e' => bool_decide (e' = e) && returned (start e w).1
  | _ => false
  end.

(** A [close()] on [e] that finds it connected. *)
Definition close_takes_effect (e : Endpoint) (op : Op) (w : World) : bool :=
  match op with
  | Close e' => bool_decide (e' = e) && bool_decide (connected w e = Some true)
  | _ => false
  end.

(** What each operation of a run completes with. *)
Fixpoint results (ops : list Op) (w : World) : list (Completion unit) :=
  match ops with
  | [] => []
  | op :: ops => (step op w).1 :: results ops (step op w).2
  end.

(** The identifier an endpoint sends to: [this._clientId] for a server,
    [this._serverTransport.sessionId] for a client. *)
Definition peerId_of (w : World) (e : Endpoint) : option string :=
  match e with
  | ServerRef i => clientId_of w i
  | ClientRef j => serverTransport_of w j ≫= λ server, sessionId w (ServerRef server)
  end.

(** The session identifiers of all transports constructed so far. *)
Definition sessionIds (w : World) : list string :=
  (srv_sessionId <$> servers w) ++ (cli_sessionId <$> clients w).

(** The session identifier a constructor call gives to the new transport. *)
Definition minted (op : Op) : option string :=
  match op with
  | NewServer id uuid => Some (server_sessionId id uuid)
  | NewClient uuid _ => Some uuid
  | _ => None
  end.

(** Every transport constructed in the run gets an identifier that no
    earlier transport has. *)
Fixpoint fresh_ids (ops : list Op) (w : World) : bool :=
  match ops with
  | [] => true
  | op :: ops =>
      match minted op with
      | Some id => bool_decide (id ∉ sessionIds w)
      | None => true
      end && fresh_ids ops (step op w).2
  end.

(** A constructor call that registers the identifier [id]. *)
Definition mints (id : string) (op : Op) (w : World) : bool :=
  bool_decide (minted op = Some id).

(** The observer invocations a timer task makes when it fires in [w]. *)
Definition delivery (w : World) (task : Task) : list Event :=
  match cb_onmessage task.1 with
  | Some (ForwardTo this) =>
      match onmessage_of w this with
      | Some h => [OnMessage this h task.2]
      | None => []
      end
  | None => []
  end.

(** The transport whose observer an event is an invocation of, and the
    invocations made on one transport. *)
Definition event_target (ev : Event) : Endpoint :=
  match ev with
  | OnMessage this _ _ => this
  | OnClose this _ => this
  end.

Definition events_of (e : Endpoint) (t : list Event) : list Event :=
  filter (λ ev, event_target ev = e) t.

(** Every transport that has been constructed is registered. *)
Definition registered_if_constructed (w : World) (e : Endpoint) : Prop :=
  is_Some (connected w e) → registered w e.

(** The messages the on-message observer of [this] has been invoked with,
    oldest first. *)
Definition received_by (this : Endpoint) (t : list Event) : list JSONRPCMessage :=
  omap (λ ev, match ev with
              | OnMessage e _ m => if decide (e = this) then Some m else None
              | OnClose _ _ => None
              end) t.

(** The messages the timer queue holds for [this], oldest first. *)
Definition pending_for (this : Endpoint) (q : list Task) : list JSONRPCMessage :=
  snd <$> filter (λ task : Task, cb_onmessage task.1 = Some (ForwardTo this)) q.

(** The messages an operation other than a turn of the event loop puts
    into the timer queue for [this]. *)
Definition accepted_for (this : Endpoint) (op : Op) (w : World) : list JSONRPCMessage :=
  match op with
  | Tick => []
  | _ => pending_for this (drop (length (timers w)) (timers (step op w).2))
  end.

Fixpoint all_accepted (this : Endpoint) (ops : list Op) (w : World) : list JSONRPCMessage :=
  match ops with
  | [] => []
  | op :: ops => accepted_for this op w ++ all_accepted this ops (step op w).2
  end.

(** The messages of the dispatches to [tid] in a run, in the order of the
    run. *)
Fixpoint dispatched (tid : string) (ops : list Op) : list JSONRPCMessage :=
  match ops with
  | [] => []
  | Dispatch targetId m :: ops =>
      if decide (targetId = tid) then m :: dispatched tid ops else dispatched tid ops
  | _ :: ops => dispatched tid ops
  end.

(** An operation that finds [tid] not registered to [target]: the target
    has been closed, or the identifier registered anew. *)
Definition rebound (tid : string) (target : Callbacks) (op : Op) (w : World) : bool :=
  bool_decide (transportMap w !! tid ≠ Some target).

(** A turn of the event loop that fires a task for [this] while [this]
    has no on-message observer: [this.onmessage?.(message)] does nothing. *)
Definition unobserved (this : Endpoint) (op : Op) (w : World) : bool :=
  match op, timers w with
  | Tick, task :: _ =>
      bool_decide (cb_onmessage task.1 = Some (ForwardTo this)) &&
      bool_decide (onmessage_of w this = None)
  | _, _ => false
  end.

(** The object a constructor call allocates. *)
Definition created_by (op : Op) (w : World) : option Endpoint :=
  match op with
  | NewServer _ _ => Some (ServerRef (length (servers w)))
  | NewClient _ _ => Some (ClientRef (length (clients w)))
  | _ => None
  end.

(** A client holds a handle, and the handle is a server object. *)
Definition has_server_handle (w : World) (e : Endpoint) : Prop :=
  match e with
  | ServerRef _ => True
  | ClientRef j => ∃ server, serverTransport_of w j = Some server ∧ server < length (servers w)
  end.

(** A [start()] of a client that holds the server [i] and does not throw:
    a handshake with [i]. *)
Definition handshake_with (i : nat) (op : Op) (w : World) : bool :=
  match op with
  | Start (ClientRef j) =>
      bool_decide (serverTransport_of w j = Some i) && returned (client_start j w).1
  | _ => false
  end.

(** Every connected client holds a server handle. *)
Definition connected_clients_hold_handles (w : World) : Prop :=
  ∀ j, connected w (ClientRef j) = Some true → is_Some (serverTransport_of w j).

(** Every registry entry forwards to a transport that has the key as its
    session identifier. *)
Definition entries_belong_to_transports (w : World) : Prop :=
  ∀ id target, transportMap w !! id = Some target →
               ∃ e, sessionId w e = Some id ∧ target = own_callbacks e.

End Transport.

(** ** Sample runs *)

Definition ping : string := "ping".
Definition demo_setup : list (@Op string) :=
  [ NewServer None "server-1";
    NewClient "client-1" (Some 0);
    SetOnMessage (ServerRef 0) (Some 1);
    SetOnClose (ServerRef 0) (Some 2);
    SetOnMessage (ClientRef 0) (Some 3);
    SetOnClose (ClientRef 0) (Some 4) ].
Definition demo_connect : list (@Op string) :=
  demo_setup ++ [ Start (ServerRef 0); Start (ClientRef 0) ].
Definition constructed : @World string := run demo_setup initial.
Definition connected_pair : @World string := run demo_connect initial.
Definition restart_ops : list (@Op string) :=
  [ NewServer None "server-1"; Start (ServerRef 0); Close (ServerRef 0); Start (ServerRef 0) ].
Definition two_clients : @World string :=
  run [ NewServer None "server-1";
        NewClient "client-1" (Some 0);
        NewClient "client-2" (Some 0);
        SetOnMessage (ClientRef 0) (Some 3);
        SetOnMessage (ClientRef 1) (Some 5);
        Start (ServerRef 0) ] initial.

(** An [onclose] observer that throws. *)
Definition failing_observer (h : Handler) : @Completion unit :=
  Thrown (ThrownByObserver "onclose failed").

Definition sample_draws (k : nat) : N := N.of_nat (k mod 16).
Definition other_draws (k : nat) : N := N.of_nat ((k + 7) mod 16).
Definition bare_registry : @World string :=
  (registry_register "bare" (mkCallbacks None) initial).2.
Definition client_started_only : @World string :=
  run (demo_setup ++ [Start (ClientRef 0)]) initial.
Definition orphan_client : @World string :=
  run [NewClient "client-1" None] initial.

Section Properties.

Context {JSONRPCMessage : Type}.

Abbreviation World := (@World JSONRPCMessage).
Abbreviation Op := (@Op JSONRPCMessage).

Implicit Types (w : World) (e : Endpoint) (i j : nat) (m message : JSONRPCMessage).
Implicit Types (op : Op) (ops : list Op).

(** *** Symbolic execution of the methods *)

Ltac unfold_methods :=
  unfold step, start, send, close, set_onmessage, set_onclose, set_onerror,
    client_start, client_send, client_close,
    server_start, server_send, server_close, server_setClientId,
    new_LocalServerTransport, new_LocalClientTransport,
    registry_send, registry_register, registry_unregister,
    tick, run_task, forward, setTimeout, emit,
    server_at, client_at, update_server, update_client,
    bind, ret, throw, get, modify in *.

Ltac unfold_readers :=
  unfold registered, peerId_of, connected, sessionId, onclose_of, onmessage_of,
    clientId_of, serverTransport_of in *.

Ltac split_bools :=
  repeat match goal with
         | H : negb ?b = _ |- _ => destruct b eqn:?; simpl in H; try discriminate H
         end.

Ltac use_lookups :=
  repeat match goal with
         | H : ?l !! ?i = _ |- context [?l !! ?i] => rewrite H
         end.

Ltac crush_method :=
  intros; unfold_methods; unfold_readers; simpl in *;
  repeat (case_match; simpl in *; simplify_option_eq; split_bools);
  rewrite ?list_lookup_alter_eq; use_lookups; simpl;
  repeat (case_match; simpl in *; simplify_option_eq; split_bools);
  try done.

(** *** What single calls do *)

Lemma step_thrown_keeps_world op w err :
  (step op w).1 = Thrown err → (step op w).2 = w.
Proof. destruct op as [| |[]|[]|[]|[]|[]|[]| |]; crush_method. Qed.

Lemma send_not_connected e m w :
  connected w e = Some false → send e m w = (Thrown NotConnected, w).
Proof. destruct e; crush_method. Qed.

Lemma close_connected e w :
  connected w e = Some true →
  (close e w).1 = Returned tt ∧
  connected (close e w).2 e = Some false ∧
  (∀ id, sessionId w e = Some id → transportMap (close e w).2 !! id = None) ∧
  sessionId (close e w).2 e = sessionId w e ∧
  trace (close e w).2 =
    trace w ++ match onclose_of w e with Some h => [OnClose e h] | None => [] end.
Proof.
  destruct e; crush_method;
    repeat split; intros; simplify_eq;
    rewrite ?lookup_delete_eq, ?app_nil_r; done.
Qed.

Lemma close_not_connected e w :
  connected w e = Some false → close e w = (Returned tt, w).
Proof. destruct e; crush_method. Qed.

Lemma start_connected e w :
  connected w e = Some true →
  ∃ err, start e w = (Thrown err, w) ∧ error_kind err = Some AlreadyStartedKind.
Proof. destruct e; crush_method; eauto. Qed.

Lemma start_not_connected e w :
  connected w e = Some false → has_server_handle w e →
  (start e w).1 = Returned tt ∧ connected (start e w).2 e = Some true.
Proof.
  destruct e as [i|j]; [crush_method|].
  intros Hc (server & Hs & Hlt). apply lookup_lt_is_Some in Hlt as [s Hsrv].
  crush_method.
Qed.

(** *** Objects on the heap *)

Lemma lookup_snoc_new {A} (l : list A) (x : A) (k : nat) :
  (l ++ [x]) !! k = if decide (k = length l) then Some x else l !! k.
Proof.
  case_decide as Hk.
  - subst. by rewrite list_lookup_middle.
  - destruct (decide (k < length l)).
    + by rewrite lookup_app_l.
    + rewrite !lookup_ge_None_2; [done|lia|rewrite length_app; simpl; lia].
Qed.

Ltac list_cases :=
  repeat (rewrite ?list_lookup_alter, ?lookup_snoc_new in *; simpl in *;
          repeat case_decide; simplify_eq; use_lookups; simpl in * ).

Ltac split_lookups :=
  repeat (match goal with
          | |- context [?l !! ?i] => destruct (l !! i) eqn:?
          end; simpl in * ).

Ltac map_cases :=
  rewrite ?lookup_insert, ?lookup_delete; repeat case_decide; simplify_eq; try done.

Ltac finish :=
  list_cases; try done; try congruence; try (f_equal; congruence);
  try (split_lookups; simplify_eq; done).

(** How the connection flag of [e] evolves under one operation: set by a
    [start()] that returns, cleared by a [close()] that finds it set,
    initialised by the constructor, and untouched otherwise. *)
Lemma connected_frame op w e :
  start_succeeds e op w = false → close_takes_effect e op w = false →
  created_by op w ≠ Some e →
  connected (step op w).2 e = connected w e.
Proof.
  destruct op as [| |e'|e'|e'|e'|e'|e'| |]; simpl.
  - destruct e; intros; unfold_methods; unfold_readers; simpl; finish.
  - destruct e; intros; unfold_methods; unfold_readers; simpl; finish.
  - intros H _ _.  destruct e, e'; crush_method; finish.
  - intros _ _ _.  destruct e, e'; crush_method; finish.
  - intros _ H _.  destruct e, e'; crush_method; finish.
  - intros _ _ _.  destruct e, e'; crush_method; finish.
  - intros _ _ _.  destruct e, e'; crush_method; finish.
  - intros _ _ _.  destruct e, e'; crush_method; finish.
  - intros _ _ _.  destruct e; crush_method; finish.
  - intros _ _ _.  destruct e; crush_method; finish.
Qed.

Lemma connected_after_start op w e :
  start_succeeds e op w = true → connected (step op w).2 e = Some true.
Proof.
  destruct op as [| |e'| | | | | | |]; simpl; try done.
  intros [He Hr]%andb_true_iff. apply bool_decide_eq_true in He. subst e'.
  destruct e; crush_method.
Qed.

Lemma connected_after_close op w e :
  close_takes_effect e op w = true → connected (step op w).2 e = Some false.
Proof.
  destruct op as [| | | |e'| | | | |]; simpl; try done.
  intros [He Hc]%andb_true_iff. apply bool_decide_eq_true in He, Hc. subst e'.
  by destruct (close_connected e w Hc) as (_ & Hf & _).
Qed.

Lemma connected_after_new op w e :
  created_by op w = Some e → connected (step op w).2 e = Some false.
Proof.
  destruct op; simpl; intros; simplify_eq; unfold_methods; unfold_readers; simpl;
    rewrite lookup_snoc_new; case_decide; done.
Qed.

Lemma step_keeps_objects op w e :
  is_Some (connected w e) → is_Some (connected (step op w).2 e).
Proof.
  intros Hex.
  destruct (start_succeeds e op w) eqn:Hs.
  { rewrite connected_after_start; eauto. }
  destruct (close_takes_effect e op w) eqn:Hc.
  { rewrite connected_after_close; eauto. }
  destruct (decide (created_by op w = Some e)) as [Hn|Hn].
  { rewrite connected_after_new; eauto. }
  by rewrite connected_frame.
Qed.

Lemma run_keeps_objects ops w e :
  is_Some (connected w e) → is_Some (connected (run ops w) e).
Proof.
  revert w. induction ops as [|op ops IH]; intros w Hex; simpl; [done|].
  by apply IH, step_keeps_objects.
Qed.

Lemma never_started_not_connected ops w e :
  connected w e ≠ Some true →
  happened (start_succeeds e) ops w = false →
  connected (run ops w) e ≠ Some true.
Proof.
  revert w. induction ops as [|op ops IH]; intros w Hw Hops; simpl in *; [done|].
  apply orb_false_iff in Hops as [Hop Hops].
  apply IH; [|done].
  destruct (close_takes_effect e op w) eqn:Hclose.
  { by rewrite connected_after_close. }
  destruct (decide (created_by op w = Some e)) as [Hnew|Hnew].
  { by rewrite connected_after_new. }
  by rewrite connected_frame.
Qed.

Lemma not_started_is_false w e :
  is_Some (connected w e) → connected w e ≠ Some true → connected w e = Some false.
Proof. intros [[] H] Hn; congruence. Qed.

(** C5. [send] before [start] has succeeded fails with "Not connected",
    for a client and for a server alike, and leaves the world as it was:
    nothing is handed to the registry, no timer is set, no observer runs.
    "Before [start] has succeeded" is read off the history: the transport
    has been constructed in the run and no [start()] on it has returned. *)
Theorem send_before_start_fails ops e m :
  let w := run ops initial in
  is_Some (connected w e) →
  happened (start_succeeds e) ops initial = false →
  send e m w = (Thrown NotConnected, w) ∧
  error_kind NotConnected = Some NotConnectedKind.
Proof.
  intros w Hex Hops. split; [|done].
  apply send_not_connected, not_started_is_false; [done|].
  apply never_started_not_connected; [|done]. by destruct e.
Qed.

(** *** [close()] with an observer that may throw *)

Ltac unfold_close_with :=
  unfold close_with, server_close_with, client_close_with, call_onclose, complete in *.

(** An observer that throws changes the completion of [close()] and nothing
    else: the world is the one a [close()] that returns leaves behind. *)
Lemma close_with_world outcome e w :
  (close_with outcome e w).2 = (close e w).2.
Proof. destruct e; unfold_close_with; crush_method. Qed.

Lemma close_with_returning e w :
  close_with (λ _, Returned tt) e w = close e w.
Proof. destruct e; unfold_close_with; crush_method. Qed.

(** [close()] completes as the observer does, if it calls one. *)
Lemma close_with_completion outcome e w :
  (close_with outcome e w).1 =
    match connected w e with
    | None => Thrown DanglingReference
    | Some false => Returned tt
    | Some true =>
        match onclose_of w e with
        | Some h => outcome h
        | None => Returned tt
        end
    end.
Proof. destruct e; unfold_close_with; crush_method. Qed.

Lemma close_connected_changes_flag e w :
  connected w e = Some true → connected (close e w).2 e = Some false.
Proof. destruct e; crush_method. Qed.

Lemma close_connected_state e w id :
  connected w e = Some true → sessionId w e = Some id →
  transportMap (close e w).2 = delete id (transportMap w) ∧
  peerId_of (close e w).2 e = peerId_of w e ∧
  timers (close e w).2 = timers w ∧
  trace (close e w).2 =
    trace w ++ match onclose_of w e with Some h => [OnClose e h] | None => [] end.
Proof.
  destruct e; crush_method; rewrite ?app_nil_r; try done.
  all: split_and!; try done.
  all: destruct (decide (n = this)) as [->|];
    rewrite ?list_lookup_alter_eq, ?list_lookup_alter_ne by done;
    by use_lookups.
Qed.

(** C8, amended. A [start] or a [send] that throws changes nothing: the
    world after the call is the world before it, and so are in particular
    the connection flag of the transport, its recorded peer identifier, the
    registry table and the timer queue. [close] is different. It throws
    nothing of its own, so on a transport object it fails only when the
    transport was connected and the [onclose] observer it calls throws; it
    then fails with what the observer threw, and after its side effects:
    the registry entry is removed and the flag cleared, exactly as by a
    [close] that returns. A throwing observer of a connected transport
    does make [close] fail. *)
Theorem failure_leaves_state_unchanged_except_close e m outcome w :
  (∀ op err, op ∈ [Start e; Send e m] →
     (step op w).1 = Thrown err →
     let w' := (step op w).2 in
     w' = w ∧ connected w' e = connected w e ∧ peerId_of w' e = peerId_of w e ∧
     transportMap w' = transportMap w ∧ timers w' = timers w) ∧
  (∀ err, is_Some (connected w e) →
     (close_with outcome e w).1 = Thrown err →
     let w' := (close_with outcome e w).2 in
     ∃ h id,
       connected w e = Some true ∧ onclose_of w e = Some h ∧
       outcome h = Thrown err ∧ sessionId w e = Some id ∧
       w' = (close e w).2 ∧
       connected w' e = Some false ∧
       transportMap w' = delete id (transportMap w) ∧
       peerId_of w' e = peerId_of w e ∧ timers w' = timers w ∧
       trace w' = trace w ++ [OnClose e h] ∧
       w' ≠ w) ∧
  (∀ h err, connected w e = Some true → onclose_of w e = Some h →
     outcome h = Thrown err → (close_with outcome e w).1 = Thrown err).
Proof.
  split; [|split].
  - intros op err _ Hthrown w'. subst w'.
    rewrite (step_thrown_keeps_world _ _ _ Hthrown). done.
  - intros err [b Hb] Hthrown w'. subst w'.
    rewrite close_with_completion, Hb in Hthrown.
    destruct b; [|done].
    destruct (onclose_of w e) as [h|] eqn:Hh; [|done].
    assert (is_Some (sessionId w e)) as [id Hid].
    { destruct e; unfold_readers; simpl in *;
        by destruct (_ !! _); simplify_option_eq. }
    destruct (close_connected_state e w id Hb Hid) as (Hmap & Hpeer & Htimers & Htrace).
    rewrite Hh in Htrace. pose proof (close_connected_changes_flag e w Hb) as Hflag.
    exists h, id. rewrite close_with_world. split_and!; try done.
    intros Heq. rewrite Heq in Hflag. congruence.
  - intros h err Hb Hh Hout. by rewrite close_with_completion, Hb, Hh.
Qed.

Lemma repeated_close_noop e w N :
  connected w e = Some false →
  results (replicate N (Close e)) w = replicate N (Returned tt) ∧
  run (replicate N (Close e)) w = w.
Proof.
  intros Hc. induction N as [|N [IH1 IH2]]; simpl; [done|].
  rewrite (close_not_connected _ _ Hc). simpl. by rewrite IH1, IH2.
Qed.

(** C6. [close()] called [N >= 2] times in a row on a transport: every
    call returns, and the calls after the first change nothing. On a
    started transport the first call is the one that closes it, and the
    close observer is invoked once, in that call. (A transport that is not
    started is left as it is by all [N] calls.) *)
Theorem close_fires_observer_once e w N :
  is_Some (connected w e) → 2 ≤ N →
  results (replicate N (Close e)) w = replicate N (Returned tt) ∧
  run (replicate N (Close e)) w = (close e w).2 ∧
  (∀ h, connected w e = Some true → onclose_of w e = Some h →
     connected (close e w).2 e = Some false ∧
     trace (close e w).2 = trace w ++ [OnClose e h] ∧
     trace (run (replicate N (Close e)) w) = trace w ++ [OnClose e h]) ∧
  (connected w e = Some false → run (replicate N (Close e)) w = w).
Proof.
  intros [b Hb] HN. destruct N as [|N]; [lia|]. simpl.
  assert (connected (close e w).2 e = Some false ∧ (close e w).1 = Returned tt)
    as [Hf Hr].
  { destruct b.
    - by destruct (close_connected e w Hb) as (? & ? & _).
    - by rewrite (close_not_connected e w Hb). }
  destruct (repeated_close_noop e _ N Hf) as [H1 H2].
  rewrite H1, H2, Hr. split_and!; try done.
  - intros h Hc Hh. destruct (close_connected e w Hc) as (_ & _ & _ & _ & Ht).
    rewrite Hh in Ht. done.
  - intros Hc. by rewrite (close_not_connected e w Hc).
Qed.

Lemma registry_send_absent id m w :
  transportMap w !! id = None →
  registry_send id m w = (Thrown (TransportNotFound id), w).
Proof. crush_method. Qed.

Lemma registry_send_present id m w target :
  transportMap w !! id = Some target →
  registry_send id m w = (Returned tt, with_timers (λ q, q ++ [(target, m)]) w).
Proof. crush_method. Qed.

Lemma unregistered_frame op w id :
  mints id op w = false →
  transportMap w !! id = None → transportMap (step op w).2 !! id = None.
Proof.
  unfold mints. intros Hm%bool_decide_eq_false Hid.
  destruct op as [| |[]|[]|[]|[]|[]|[]| |]; crush_method; finish; map_cases.
Qed.

Lemma unregistered_stays ops w id :
  happened (mints id) ops w = false →
  transportMap w !! id = None → transportMap (run ops w) !! id = None.
Proof.
  revert w. induction ops as [|op ops IH]; intros w Hops Hid; simpl in *; [done|].
  apply orb_false_iff in Hops as [Hop Hops].
  apply IH; [done|]. by apply unregistered_frame.
Qed.

(** C7. Once a started transport has been closed, a [send] from it throws
    "Not connected", and a dispatch to its session identifier throws
    "Transport with ID ... not found". Both stay so for as long as no
    [start()] on the transport succeeds, resp. no constructor registers the
    identifier again. *)
Theorem closed_endpoint_is_unreachable e w id m :
  connected w e = Some true → sessionId w e = Some id →
  let w' := (close e w).2 in
  (send e m w' = (Thrown NotConnected, w') ∧
   registry_send id m w' = (Thrown (TransportNotFound id), w')) ∧
  (error_kind NotConnected = Some NotConnectedKind ∧
   error_kind (TransportNotFound id) = Some PeerUnavailableKind) ∧
  (∀ ops, happened (start_succeeds e) ops w' = false →
     send e m (run ops w') = (Thrown NotConnected, run ops w')) ∧
  (∀ ops, happened (mints id) ops w' = false →
     registry_send id m (run ops w') = (Thrown (TransportNotFound id), run ops w')).
Proof.
  intros Hc Hid w'.
  destruct (close_connected e w Hc) as (_ & Hf & Hun & _ & _).
  specialize (Hun id Hid). fold w' in Hf, Hun.
  split_and!; try done.
  - by apply send_not_connected.
  - by apply registry_send_absent.
  - intros ops Hops. apply send_not_connected, not_started_is_false.
    + apply run_keeps_objects. rewrite Hf. eauto.
    + apply never_started_not_connected; [congruence|done].
  - intros ops Hops. apply registry_send_absent. by apply unregistered_stays.
Qed.

Lemma close_keeps_handle e w : has_server_handle w e → has_server_handle (close e w).2 e.
Proof.
  destruct e as [i|j]; [done|]. intros (server & Hs & Hlt).
  exists server. crush_method; finish.
Qed.

(** C2, as the code has it. [start()] throws "already started" exactly
    when the connection flag is set. The flag is all the state there is:
    [close()] on a started transport clears it, and a [start()] after that
    returns and sets it again (a client needs the server handle it was
    constructed with). *)
Theorem start_fails_exactly_when_connected e w :
  has_server_handle w e →
  (connected w e = Some true →
     ∃ err, start e w = (Thrown err, w) ∧ error_kind err = Some AlreadyStartedKind) ∧
  (connected w e = Some false →
     (start e w).1 = Returned tt ∧ connected (start e w).2 e = Some true) ∧
  (connected w e = Some true →
     let w' := (close e w).2 in
     connected w' e = Some false ∧
     (start e w').1 = Returned tt ∧ connected (start e w').2 e = Some true).
Proof.
  intros Hh. split_and!.
  - apply start_connected.
  - intros Hc. by apply start_not_connected.
  - intros Hc w'. destruct (close_connected e w Hc) as (_ & Hf & _).
    split; [done|]. apply start_not_connected; [done|]. by apply close_keeps_handle.
Qed.

(** *** The timer queue *)

Lemma delivery_ext w w' task :
  servers w' = servers w → clients w' = clients w → delivery w' task = delivery w task.
Proof.
  intros Hs Hc. unfold delivery, onmessage_of.
  destruct (cb_onmessage task.1) as [[[i|j]]|]; by rewrite ?Hs, ?Hc.
Qed.

Lemma tick_nil w : timers w = [] → tick w = (Returned tt, w).
Proof. crush_method. Qed.

Lemma tick_cons w task rest :
  timers w = task :: rest →
  (tick w).1 = Returned tt ∧ timers (tick w).2 = rest ∧
  trace (tick w).2 = trace w ++ delivery w task ∧
  servers (tick w).2 = servers w ∧ clients (tick w).2 = clients w ∧
  transportMap (tick w).2 = transportMap w.
Proof.
  intros Hq. unfold delivery. destruct task as [[[[this]|]] m];
    crush_method; rewrite ?app_nil_r; done.
Qed.

Lemma ticks_spec q q' w :
  timers w = q ++ q' →
  (ticks (length q) w).1 = Returned tt ∧ timers (ticks (length q) w).2 = q' ∧
  trace (ticks (length q) w).2 = trace w ++ flat_map (delivery w) q ∧
  servers (ticks (length q) w).2 = servers w ∧
  clients (ticks (length q) w).2 = clients w ∧
  transportMap (ticks (length q) w).2 = transportMap w.
Proof.
  revert w. induction q as [|task q IH]; intros w Hq; simpl.
  { rewrite app_nil_r. done. }
  destruct (tick_cons w task (q ++ q') Hq) as (Hr & Ht & Htr & Hs & Hc & Hm).
  unfold bind at 1 2 3 4 5 6. destruct (tick w) as [[[]|err] w1]; simpl in *; [|done].
  destruct (IH w1 Ht) as (Hr' & Ht' & Htr' & Hs' & Hc' & Hm').
  rewrite Hr', Ht', Htr', Hs', Hc', Hm', Htr, Hs, Hc, Hm.
  rewrite <- app_assoc. split_and!; try done.
  do 2 f_equal. apply flat_map_ext. intros t. by apply delivery_ext.
Qed.

Lemma drain_spec w :
  (drain w).1 = Returned tt ∧ timers (drain w).2 = [] ∧
  trace (drain w).2 = trace w ++ flat_map (delivery w) (timers w) ∧
  servers (drain w).2 = servers w ∧ clients (drain w).2 = clients w ∧
  transportMap (drain w).2 = transportMap w.
Proof.
  unfold drain, bind, get. simpl.
  apply (ticks_spec (timers w) [] w). by rewrite app_nil_r.
Qed.

(** *** Dispatch *)

Lemma dispatch_all tid target ms w :
  transportMap w !! tid = Some target →
  results (Dispatch tid <$> ms) w = (λ _, Returned tt) <$> ms ∧
  run (Dispatch tid <$> ms) w = with_timers (λ q, q ++ ((λ m, (target, m)) <$> ms)) w.
Proof.
  revert w. induction ms as [|m ms IH]; intros w Htid; csimpl.
  { split; [done|]. destruct w; unfold with_timers; csimpl. by rewrite app_nil_r. }
  rewrite (registry_send_present _ _ _ _ Htid). csimpl.
  destruct (IH (with_timers (λ q, q ++ [(target, m)]) w)) as [IH1 IH2]; [done|].
  rewrite IH1, IH2. split; [done|].
  unfold with_timers; csimpl. by rewrite <- app_assoc.
Qed.

Lemma delivery_to this h target m w :
  cb_onmessage target = Some (ForwardTo this) → onmessage_of w this = Some h →
  delivery w (target, m) = [OnMessage this h m].
Proof. intros Ht Hh. unfold delivery. csimpl. by rewrite Ht, Hh. Qed.

Lemma flat_map_delivery_to this h target ms w :
  cb_onmessage target = Some (ForwardTo this) → onmessage_of w this = Some h →
  flat_map (delivery w) ((λ m, (target, m)) <$> ms) = OnMessage this h <$> ms.
Proof.
  intros Ht Hh. induction ms as [|m ms IH]; csimpl; [done|].
  by rewrite IH, (delivery_to this h).
Qed.

(** The same for a client that sends [m1 ... mk] to its server. *)
Lemma client_send_eval j c i s m w :
  clients w !! j = Some c → cli_connected c = true →
  cli_serverTransport c = Some i → servers w !! i = Some s →
  client_send j m w = registry_send (srv_sessionId s) m w.
Proof. crush_method. Qed.

Lemma client_send_all j c i s target ms w :
  clients w !! j = Some c → cli_connected c = true →
  cli_serverTransport c = Some i → servers w !! i = Some s →
  transportMap w !! srv_sessionId s = Some target →
  results (Send (ClientRef j) <$> ms) w = (λ _, Returned tt) <$> ms ∧
  run (Send (ClientRef j) <$> ms) w =
    with_timers (λ q, q ++ ((λ m, (target, m)) <$> ms)) w.
Proof.
  intros Hc Hcon Hh. revert w Hc.
  induction ms as [|m ms IH]; intros w Hc Hs Htid; csimpl.
  { split; [done|]. destruct w; unfold with_timers; simpl. by rewrite app_nil_r. }
  rewrite (client_send_eval j c i s m w), (registry_send_present _ _ _ _ Htid) by done.
  csimpl.
  destruct (IH (with_timers (λ q, q ++ [(target, m)]) w)) as [IH1 IH2]; [done..|].
  rewrite IH1, IH2. split; [done|].
  unfold with_timers; simpl. by rewrite <- app_assoc.
Qed.

Lemma client_sends_arrive_in_order j i sid h ms w :
  connected w (ClientRef j) = Some true →
  serverTransport_of w j = Some i →
  sessionId w (ServerRef i) = Some sid →
  transportMap w !! sid = Some (own_callbacks (ServerRef i)) →
  onmessage_of w (ServerRef i) = Some h →
  results (Send (ClientRef j) <$> ms) w = (λ _, Returned tt) <$> ms ∧
  trace (drain (run (Send (ClientRef j) <$> ms) w)).2 =
    trace (drain w).2 ++ (OnMessage (ServerRef i) h <$> ms).
Proof.
  intros Hcon Hh Hsid Hreg Hobs.
  unfold connected, serverTransport_of, sessionId in Hcon, Hh, Hsid.
  destruct (clients w !! j) as [c|] eqn:Hc; simpl in Hcon, Hh; [|done].
  destruct (servers w !! i) as [s|] eqn:Hs; simpl in Hsid; [|done].
  injection Hcon as Hcon. injection Hsid as <-.
  destruct (client_send_all j c i s (own_callbacks (ServerRef i)) ms w)
    as [Hres Hrun]; [done..|].
  rewrite Hres, Hrun. split; [done|].
  destruct (drain_spec w) as (_ & _ & -> & _).
  destruct (drain_spec
    (with_timers (λ q, q ++ ((λ m, (own_callbacks (ServerRef i), m)) <$> ms)) w))
    as (_ & _ & -> & _).
  simpl. rewrite flat_map_app, app_assoc. f_equal.
  by apply (flat_map_delivery_to (ServerRef i) h).
Qed.

Lemma step_appends_timers op w :
  op ≠ Tick → ∃ new, timers (step op w).2 = timers w ++ new.
Proof.
  intros Hop.
  destruct op as [| |[]|[]|[]|[]|[]|[]| |]; crush_method;
    first [by exists [] ; rewrite app_nil_r | by eexists [_] ].
Qed.

Lemma run_appends_timers ops w :
  Tick ∉ ops → ∃ new, timers (run ops w) = timers w ++ new.
Proof.
  revert w. induction ops as [|op ops IH]; intros w Hno; simpl.
  { exists []. by rewrite app_nil_r. }
  apply not_elem_of_cons in Hno as [Hop Hno].
  destruct (step_appends_timers op w) as [new1 H1]; [done|].
  destruct (IH (step op w).2 Hno) as [new2 H2].
  exists (new1 ++ new2). by rewrite H2, H1, app_assoc.
Qed.

(** **** Order of arrival under any interleaving *)

Lemma received_by_app this (t1 t2 : list (@Event JSONRPCMessage)) :
  received_by this (t1 ++ t2) = received_by this t1 ++ received_by this t2.
Proof. apply omap_app. Qed.

Lemma pending_for_app this (q1 q2 : list (@Task JSONRPCMessage)) :
  pending_for this (q1 ++ q2) = pending_for this q1 ++ pending_for this q2.
Proof. unfold pending_for. by rewrite filter_app, fmap_app. Qed.

Lemma step_trace_no_message op w this :
  op ≠ Tick → received_by this (trace (step op w).2) = received_by this (trace w).
Proof.
  intros Hop.
  destruct op as [| |[]|[]|[]|[]|[]|[]| |]; crush_method;
    rewrite received_by_app; simpl; by rewrite app_nil_r.
Qed.

Lemma tick_arrivals this w :
  unobserved this Tick w = false →
  received_by this (trace (tick w).2) ++ pending_for this (timers (tick w).2) =
  received_by this (trace w) ++ pending_for this (timers w).
Proof.
  intros Hobs. destruct (timers w) as [|task rest] eqn:Hq.
  { rewrite (tick_nil w Hq). simpl. by rewrite Hq. }
  destruct (tick_cons w task rest Hq) as (_ & -> & -> & _).
  unfold unobserved in Hobs. rewrite Hq in Hobs.
  rewrite received_by_app, <- app_assoc. f_equal.
  unfold pending_for, delivery. rewrite filter_cons.
  destruct (cb_onmessage task.1) as [[e]|] eqn:Hcb.
  - destruct (decide (e = this)) as [->|Hne].
    + rewrite decide_True by done.
      rewrite bool_decide_eq_true_2 in Hobs by done. simpl in Hobs.
      apply bool_decide_eq_false in Hobs.
      destruct (onmessage_of w this) as [h|]; [|done].
      simpl. by rewrite decide_True.
    + rewrite decide_False by congruence.
      destruct (onmessage_of w e); simpl; [|done]. by rewrite decide_False.
  - by rewrite decide_False.
Qed.

Lemma step_arrivals this op w :
  unobserved this op w = false →
  received_by this (trace (step op w).2) ++ pending_for this (timers (step op w).2) =
  (received_by this (trace w) ++ pending_for this (timers w)) ++ accepted_for this op w.
Proof.
  intros Hobs.
  assert (op = Tick ∨ op ≠ Tick) as [->|Hop] by (destruct op; auto).
  { simpl. rewrite app_nil_r. by apply tick_arrivals. }
  rewrite step_trace_no_message by done.
  destruct (step_appends_timers op w Hop) as [new Hnew].
  assert (accepted_for this op w = pending_for this new) as ->.
  { destruct op; try done; cbn [accepted_for]; by rewrite Hnew, drop_app_length. }
  by rewrite Hnew, pending_for_app, app_assoc.
Qed.

(** Whatever is done in whatever order, the messages [this] has received
    followed by those still queued for it are the messages accepted for it,
    in the order they were accepted. *)
Lemma arrivals_in_order_of_acceptance this ops w :
  happened (unobserved this) ops w = false →
  received_by this (trace (run ops w)) ++ pending_for this (timers (run ops w)) =
  (received_by this (trace w) ++ pending_for this (timers w)) ++ all_accepted this ops w.
Proof.
  revert w. induction ops as [|op ops IH]; intros w Hobs; simpl in *.
  { by rewrite app_nil_r. }
  apply orb_false_iff in Hobs as [Hop Hobs].
  by rewrite IH, step_arrivals, app_assoc.
Qed.

Lemma accepted_for_dispatch this tid target m w :
  transportMap w !! tid = Some target →
  cb_onmessage target = Some (ForwardTo this) →
  accepted_for this (Dispatch tid m) w = [m].
Proof.
  intros Htid Ht. cbn [accepted_for step].
  rewrite (registry_send_present _ _ _ _ Htid). simpl.
  rewrite drop_app_length. unfold pending_for.
  rewrite filter_cons, decide_True by done. done.
Qed.

Lemma received_by_deliveries this h q w :
  onmessage_of w this = Some h →
  received_by this (flat_map (delivery w) q) = pending_for this q.
Proof.
  intros Hh. induction q as [|task q IH]; [done|].
  cbn [flat_map]. rewrite received_by_app, IH.
  unfold pending_for, delivery. rewrite filter_cons.
  destruct (cb_onmessage task.1) as [[e]|] eqn:Hcb.
  - destruct (decide (e = this)) as [->|Hne].
    + rewrite decide_True, Hh by done. simpl. by rewrite decide_True.
    + rewrite decide_False by congruence.
      destruct (onmessage_of w e); simpl; [|done]. by rewrite decide_False.
  - by rewrite decide_False.
Qed.

(** Once the event loop has run, [this] has received every message that
    was accepted for it, in the order of acceptance. *)
Lemma delivery_order_under_interleaving this h ops w :
  happened (unobserved this) ops w = false →
  onmessage_of (run ops w) this = Some h →
  received_by this (trace (drain (run ops w)).2) =
    (received_by this (trace w) ++ pending_for this (timers w)) ++
    all_accepted this ops w.
Proof.
  intros Hobs Hh.
  destruct (drain_spec (run ops w)) as (_ & _ & -> & _).
  rewrite received_by_app, (received_by_deliveries this h) by done.
  by apply arrivals_in_order_of_acceptance.
Qed.

Lemma dispatched_accepted tid target this ops w :
  cb_onmessage target = Some (ForwardTo this) →
  happened (rebound tid target) ops w = false →
  dispatched tid ops `sublist_of` all_accepted this ops w.
Proof.
  intros Ht. revert w. induction ops as [|op ops IH]; intros w Hb; simpl in *.
  { constructor. }
  apply orb_false_iff in Hb as [Hop Hb]. specialize (IH _ Hb).
  apply bool_decide_eq_false in Hop. apply dec_stable in Hop.
  destruct op as [| | | | | | | |targetId m|];
    try (by apply sublist_inserts_l).
  case_decide as Hid; [subst targetId|by apply sublist_inserts_l].
  rewrite (accepted_for_dispatch this tid target m w) by done.
  by apply sublist_skip.
Qed.

(** C3. Messages [m1 ... mk] dispatched through the registry to one
    registered identifier are all accepted, are queued behind the timers
    already pending in the order they were dispatched, and reach the
    on-message observer of the target in that order when the event loop
    runs. The same holds when other operations come in between, as long as
    the identifier stays registered to the target and the target has its
    observer when a timer for it fires: what the target has received once
    the event loop has run is what it had received or had pending before,
    followed by the messages accepted for it in the order of their
    acceptance, with [m1 ... mk] among them in the order of dispatch. *)
Theorem dispatch_order_is_delivery_order tid target this h w :
  transportMap w !! tid = Some target →
  cb_onmessage target = Some (ForwardTo this) →
  onmessage_of w this = Some h →
  (∀ ms,
     let w' := run (Dispatch tid <$> ms) w in
     results (Dispatch tid <$> ms) w = (λ _, Returned tt) <$> ms ∧
     timers w' = timers w ++ ((λ m, (target, m)) <$> ms) ∧
     trace w' = trace w ∧
     trace (drain w').2 = trace (drain w).2 ++ (OnMessage this h <$> ms)) ∧
  (∀ ops,
     happened (rebound tid target) ops w = false →
     happened (unobserved this) ops w = false →
     is_Some (onmessage_of (run ops w) this) →
     dispatched tid ops `sublist_of` all_accepted this ops w ∧
     received_by this (trace (drain (run ops w)).2) =
       (received_by this (trace w) ++ pending_for this (timers w)) ++
       all_accepted this ops w).
Proof.
  intros Htid Ht Hh. split.
  - intros ms w'.
    destruct (dispatch_all tid target ms w Htid) as [Hres Hrun].
    subst w'. rewrite Hrun. split_and!; try done.
    destruct (drain_spec w) as (_ & _ & -> & _).
    destruct (drain_spec (with_timers (λ q, q ++ ((λ m, (target, m)) <$> ms)) w))
      as (_ & _ & -> & _).
    simpl. rewrite flat_map_app, app_assoc. f_equal.
    by apply (flat_map_delivery_to this h).
  - intros ops Hb Hobs [h' Hh']. split.
    + by apply (dispatched_accepted tid target).
    + by apply (delivery_order_under_interleaving this h').
Qed.

(** C4. A dispatch to an identifier with no registry entry throws to
    the caller and changes nothing. A dispatch to a registered identifier
    returns without any observer having run and leaves one more timer at
    the end of the queue; whatever is done afterwards short of running the
    event loop (closing the target included), that timer is next once the
    timers that were pending before it have fired, and firing it hands the
    message to the on-message observer of the target. *)
Theorem dispatch_is_deferred_not_dropped tid m w :
  (transportMap w !! tid = None →
     registry_send tid m w = (Thrown (TransportNotFound tid), w)) ∧
  (∀ target, transportMap w !! tid = Some target →
     let w1 := (registry_send tid m w).2 in
     (registry_send tid m w).1 = Returned tt ∧
     trace w1 = trace w ∧
     timers w1 = timers w ++ [(target, m)] ∧
     ∀ ops, Tick ∉ ops →
       let w2 := (ticks (length (timers w)) (run ops w1)).2 in
       ∃ rest, timers w2 = (target, m) :: rest ∧ timers (tick w2).2 = rest ∧
         ∀ this h, cb_onmessage target = Some (ForwardTo this) →
           onmessage_of w2 this = Some h →
           trace (tick w2).2 = trace w2 ++ [OnMessage this h m]).
Proof.
  split; [apply registry_send_absent|].
  intros target Htid w1. subst w1.
  rewrite (registry_send_present _ _ _ _ Htid). simpl.
  split_and!; try done.
  intros ops Hno. set (w2 := (ticks _ _).2).
  destruct (run_appends_timers ops (with_timers (λ q, q ++ [(target, m)]) w) Hno)
    as [new Hnew]. simpl in Hnew. rewrite <- !app_assoc in Hnew.
  destruct (ticks_spec _ _ _ Hnew) as (_ & Hq & _). fold w2 in Hq. simpl in Hq.
  exists new. destruct (tick_cons w2 _ _ Hq) as (_ & Hrest & Htr & _).
  split_and!; try done.
  intros this h Ht Hh. by rewrite Htr, (delivery_to this h).
Qed.

(** *** The handshake *)

Lemma server_send_eval i s cid m w :
  servers w !! i = Some s → srv_connected s = true →
  srv_clientId s = Some cid → cid ≠ "" →
  server_send i m w = registry_send cid m w.
Proof. crush_method. Qed.

Lemma client_start_eval j c i w :
  clients w !! j = Some c → cli_connected c = false →
  cli_serverTransport c = Some i → is_Some (servers w !! i) →
  client_start j w =
    (Returned tt,
     with_clients (alter (cli_set_connected true) j)
       (with_servers (alter (srv_set_clientId (Some (cli_sessionId c))) i) w)).
Proof. intros ??? [s Hs]. crush_method. Qed.

(** A successful [start()] of a client leaves its identifier in its server. *)
Lemma handshake_records_client j i cid w :
  serverTransport_of w j = Some i → sessionId w (ClientRef j) = Some cid →
  (start (ClientRef j) w).1 = Returned tt →
  let w' := (start (ClientRef j) w).2 in
  clientId_of w' i = Some cid ∧ connected w' (ClientRef j) = Some true ∧
  connected w' (ServerRef i) = connected w (ServerRef i) ∧
  transportMap w' = transportMap w ∧ sessionId w' (ClientRef j) = Some cid ∧
  onmessage_of w' (ClientRef j) = onmessage_of w (ClientRef j).
Proof. cbv zeta. crush_method; finish. Qed.

Lemma server_start_keeps_handshake i w :
  (start (ServerRef i) w).1 = Returned tt →
  let w' := (start (ServerRef i) w).2 in
  connected w' (ServerRef i) = Some true ∧ clientId_of w' i = clientId_of w i ∧
  clients w' = clients w ∧ transportMap w' = transportMap w.
Proof. cbv zeta. crush_method; finish. Qed.

(** Both orders of starting a constructed pair end in the state the next
    theorem starts from. *)
Lemma started_pair_either_order i j cid w ops :
  ops = [Start (ServerRef i); Start (ClientRef j)] ∨
  ops = [Start (ClientRef j); Start (ServerRef i)] →
  results ops w = [Returned tt; Returned tt] →
  serverTransport_of w j = Some i →
  sessionId w (ClientRef j) = Some cid →
  registered w (ClientRef j) →
  connected (run ops w) (ServerRef i) = Some true ∧
  connected (run ops w) (ClientRef j) = Some true ∧
  sessionId (run ops w) (ClientRef j) = Some cid ∧
  clientId_of (run ops w) i = Some cid ∧
  registered (run ops w) (ClientRef j) ∧
  onmessage_of (run ops w) (ClientRef j) = onmessage_of w (ClientRef j).
Proof.
  intros Hops Hres Hh Hid (id & Hid' & Hreg).
  assert (id = cid) as -> by congruence. clear Hid'.
  unfold registered.
  destruct Hops as [-> | ->]; cbn [run results step start] in *;
    injection Hres as Hr1 Hr2.
  - pose proof (server_start_keeps_handshake i w Hr1) as Ha.
    cbv zeta in Ha. cbn [start] in Ha. destruct Ha as (Ha1 & Ha2 & Ha3 & Ha4).
    remember (server_start i w).2 as wa eqn:Hwa. clear Hwa.
    assert (serverTransport_of wa j = Some i) as Hh'
      by (unfold serverTransport_of in *; by rewrite Ha3).
    assert (sessionId wa (ClientRef j) = Some cid) as Hid'
      by (simpl in *; by rewrite Ha3).
    pose proof (handshake_records_client j i cid wa Hh' Hid' Hr2) as Hb.
    cbv zeta in Hb. cbn [start] in Hb.
    destruct Hb as (Hb1 & Hb2 & Hb3 & Hb4 & Hb5 & Hb6).
    split_and!; try done; try congruence.
    + exists cid. split; [done|]. congruence.
    + rewrite Hb6. simpl. by rewrite Ha3.
  - pose proof (handshake_records_client j i cid w Hh Hid Hr1) as Ha.
    cbv zeta in Ha. cbn [start] in Ha.
    destruct Ha as (Ha1 & Ha2 & Ha3 & Ha4 & Ha5 & Ha6).
    remember (client_start j w).2 as wa eqn:Hwa. clear Hwa.
    pose proof (server_start_keeps_handshake i wa Hr2) as Hb.
    cbv zeta in Hb. cbn [start] in Hb. destruct Hb as (Hb1 & Hb2 & Hb3 & Hb4).
    split_and!; try done; try congruence.
    + simpl in *. by rewrite Hb3.
    + simpl in *. by rewrite Hb3.
    + exists cid. split; [simpl in *; by rewrite Hb3|congruence].
    + simpl in *. rewrite Hb3. done.
Qed.

(** C1. With the server started, the client started, and the session
    identifier of the client recorded in the server by the handshake and
    still registered, [send(m)] on the server returns, runs no observer by
    itself, and sets a timer which, when the event loop runs, invokes the
    on-message observer of the client with [m].
    [cid <> ""] holds of every identifier [generateUUID()] returns. *)
Theorem server_reaches_client_after_handshake i j cid h m w :
  connected w (ServerRef i) = Some true →
  connected w (ClientRef j) = Some true →
  sessionId w (ClientRef j) = Some cid → cid ≠ "" →
  clientId_of w i = Some cid →
  registered w (ClientRef j) →
  onmessage_of w (ClientRef j) = Some h →
  let w1 := (server_send i m w).2 in
  (server_send i m w).1 = Returned tt ∧
  trace w1 = trace w ∧
  timers w1 = timers w ++ [(own_callbacks (ClientRef j), m)] ∧
  trace (drain w1).2 = trace (drain w).2 ++ [OnMessage (ClientRef j) h m].
Proof.
  intros Hs _ Hid Hne Hcid (id & Hid' & Hreg) Hh.
  assert (id = cid) as -> by congruence.
  unfold connected, clientId_of in Hs, Hcid.
  destruct (servers w !! i) as [s|] eqn:Hsrv; simpl in Hs, Hcid; [|done].
  rewrite (server_send_eval i s cid m w), (registry_send_present _ _ _ _ Hreg)
    by congruence.
  simpl. split_and!; try done.
  destruct (drain_spec w) as (_ & _ & -> & _).
  destruct (drain_spec (with_timers (λ q, q ++ [(own_callbacks (ClientRef j), m)]) w))
    as (_ & _ & -> & _).
  simpl. rewrite flat_map_app, app_assoc. f_equal.
  simpl. rewrite (delivery_to (ClientRef j) h); done.
Qed.

Lemma server_send_all i s cid target ms w :
  servers w !! i = Some s → srv_connected s = true →
  srv_clientId s = Some cid → cid ≠ "" →
  transportMap w !! cid = Some target →
  results (Send (ServerRef i) <$> ms) w = (λ _, Returned tt) <$> ms ∧
  run (Send (ServerRef i) <$> ms) w =
    with_timers (λ q, q ++ ((λ m, (target, m)) <$> ms)) w.
Proof.
  intros Hs Hc Hcid Hne. revert w Hs.
  induction ms as [|m ms IH]; intros w Hs Htid; csimpl.
  { split; [done|]. destruct w; unfold with_timers; simpl. by rewrite app_nil_r. }
  rewrite (server_send_eval i s cid m w), (registry_send_present _ _ _ _ Htid) by done.
  csimpl.
  destruct (IH (with_timers (λ q, q ++ [(target, m)]) w)) as [IH1 IH2]; [done..|].
  rewrite IH1, IH2. split; [done|].
  unfold with_timers; simpl. by rewrite <- app_assoc.
Qed.

Lemma events_of_app e (t1 t2 : list (@Event JSONRPCMessage)) :
  events_of e (t1 ++ t2) = events_of e t1 ++ events_of e t2.
Proof. apply filter_app. Qed.

Lemma events_of_other_delivery e this ms w :
  e ≠ this →
  events_of e (flat_map (delivery w) ((λ m, (own_callbacks this, m)) <$> ms)) = [].
Proof.
  intros Hne. induction ms as [|m ms IH]; csimpl; [done|].
  rewrite events_of_app, IH, app_nil_r. unfold delivery. simpl.
  destruct (onmessage_of w this); [|done].
  unfold events_of. rewrite filter_cons_False; [done|]. simpl. congruence.
Qed.

(** C10. When two clients with different session identifiers complete
    the handshake with one server, the server keeps the identifier of the
    second one; every later [send] of the server is a dispatch to that
    identifier, and the observers of the first client see nothing of those
    sends. Taking the clients in the other order exchanges their roles. *)
Theorem latest_handshake_wins i j1 j2 id1 id2 w :
  serverTransport_of w j1 = Some i → serverTransport_of w j2 = Some i →
  sessionId w (ClientRef j1) = Some id1 → sessionId w (ClientRef j2) = Some id2 →
  id1 ≠ id2 →
  results [Start (ClientRef j1); Start (ClientRef j2)] w = [Returned tt; Returned tt] →
  let w' := run [Start (ClientRef j1); Start (ClientRef j2)] w in
  clientId_of w' i = Some id2 ∧
  (connected w' (ServerRef i) = Some true → id2 ≠ "" →
   (∀ m, server_send i m w' = registry_send id2 m w') ∧
   (registered w' (ClientRef j2) → ∀ ms,
      let w2 := run (Send (ServerRef i) <$> ms) w' in
      results (Send (ServerRef i) <$> ms) w' = (λ _, Returned tt) <$> ms ∧
      timers w2 = timers w' ++ ((λ m, (own_callbacks (ClientRef j2), m)) <$> ms) ∧
      events_of (ClientRef j1) (trace (drain w2).2) =
        events_of (ClientRef j1) (trace (drain w').2) ∧
      (∀ h2, onmessage_of w' (ClientRef j2) = Some h2 →
         trace (drain w2).2 =
           trace (drain w').2 ++ (OnMessage (ClientRef j2) h2 <$> ms)))).
Proof.
  intros Hh1 Hh2 Hid1 Hid2 Hne Hres.
  cbn [run results step start] in *.
  injection Hres as Hr1 Hr2.
  pose proof (handshake_records_client j1 i id1 w Hh1 Hid1 Hr1) as Ha.
  cbv zeta in Ha. cbn [start] in Ha.
  assert (j1 ≠ j2) as Hj by (intros ->; congruence).
  assert (serverTransport_of (client_start j1 w).2 j2 = Some i ∧
          sessionId (client_start j1 w).2 (ClientRef j2) = Some id2) as [Hh2' Hid2'].
  { revert Hr1 Hh1 Hh2 Hid2. clear -Hj. crush_method; finish. }
  remember (client_start j1 w).2 as wa eqn:Hwa. clear Hwa.
  pose proof (handshake_records_client j2 i id2 wa Hh2' Hid2' Hr2) as Hb.
  cbv zeta in Hb. cbn [start] in Hb.
  remember (client_start j2 wa).2 as w' eqn:Hw'. clear Hw'.
  destruct Hb as (Hb1 & Hb2 & Hb3 & Hb4 & Hb5 & Hb6).
  split; [done|]. intros Hc Hne2.
  unfold connected, clientId_of in Hc, Hb1.
  destruct (servers w' !! i) as [s|] eqn:Hs; simpl in Hc, Hb1; [|done].
  split.
  { intros m. apply (server_send_eval i s); congruence. }
  intros (id & Hid & Hreg) ms.
  assert (id = id2) as -> by congruence.
  destruct (server_send_all i s id2 (own_callbacks (ClientRef j2)) ms w')
    as [Hresults Hrun]; [first [done|congruence]..|].
  rewrite Hresults, Hrun.
  destruct (drain_spec w') as (_ & _ & Hd & _).
  destruct (drain_spec
    (with_timers (λ q, q ++ ((λ m, (own_callbacks (ClientRef j2), m)) <$> ms)) w'))
    as (_ & _ & Hd2 & _).
  rewrite Hd, Hd2. simpl. rewrite flat_map_app, app_assoc.
  split_and!; try done.
  - rewrite events_of_app.
    rewrite (events_of_other_delivery (ClientRef j1) (ClientRef j2)) by congruence.
    by rewrite app_nil_r.
  - intros h2 Hobs. f_equal.
    by apply (flat_map_delivery_to (ClientRef j2) h2).
Qed.

(** *** Registration *)

Lemma fmap_alter_same {A B} (f : A → B) (g : A → A) (l : list A) (k : nat) :
  (∀ x, f (g x) = f x) → f <$> alter g k l = f <$> l.
Proof.
  intros Hfg. apply list_eq. intros n.
  rewrite !list_lookup_fmap, list_lookup_alter.
  case_decide; subst; destruct (l !! _); simpl; by rewrite ?Hfg.
Qed.

Lemma server_ids_step op w :
  srv_sessionId <$> servers (step op w).2 =
    (srv_sessionId <$> servers w) ++
    match op with
    | NewServer id uuid => [server_sessionId id uuid]
    | _ => []
    end.
Proof.
  destruct op as [| |[]|[]|[]|[]|[]|[]| |]; crush_method;
    rewrite ?fmap_app, ?app_nil_r; try done;
    by rewrite ?fmap_alter_same.
Qed.

Lemma client_ids_step op w :
  cli_sessionId <$> clients (step op w).2 =
    (cli_sessionId <$> clients w) ++
    match op with
    | NewClient uuid _ => [uuid]
    | _ => []
    end.
Proof.
  destruct op as [| |[]|[]|[]|[]|[]|[]| |]; crush_method;
    rewrite ?fmap_app, ?app_nil_r; try done;
    by rewrite ?fmap_alter_same.
Qed.

Lemma sessionIds_step op w :
  sessionIds (step op w).2 ≡ₚ
    match minted op with
    | Some id => id :: sessionIds w
    | None => sessionIds w
    end.
Proof.
  unfold sessionIds. rewrite server_ids_step, client_ids_step.
  destruct op; simpl; rewrite ?app_nil_r; try done.
  - rewrite <- app_assoc. simpl. by rewrite <- Permutation_middle.
  - by rewrite app_assoc, <- Permutation_cons_append.
Qed.

Lemma sessionId_step op w e id :
  sessionId w e = Some id → sessionId (step op w).2 e = Some id.
Proof.
  intros Hid. destruct e as [i|j]; simpl in *.
  - rewrite <- list_lookup_fmap in *. rewrite server_ids_step.
    by apply lookup_app_l_Some.
  - rewrite <- list_lookup_fmap in *. rewrite client_ids_step.
    by apply lookup_app_l_Some.
Qed.

Lemma sessionId_elem w e id : sessionId w e = Some id → id ∈ sessionIds w.
Proof.
  unfold sessionIds. rewrite elem_of_app.
  destruct e as [i|j]; simpl; rewrite <- list_lookup_fmap;
    intros Hl; apply list_elem_of_lookup_2 in Hl; auto.
Qed.

Lemma sessionId_inj w e e' id :
  NoDup (sessionIds w) →
  sessionId w e = Some id → sessionId w e' = Some id → e = e'.
Proof.
  unfold sessionIds. intros [Hs [Hsc Hc]]%NoDup_app.
  destruct e as [i|j], e' as [i'|j']; simpl; rewrite <- !list_lookup_fmap; intros H1 H2.
  - f_equal. exact (NoDup_lookup _ _ _ _ Hs H1 H2).
  - apply list_elem_of_lookup_2 in H1, H2. destruct (Hsc id H1 H2).
  - apply list_elem_of_lookup_2 in H1, H2. destruct (Hsc id H2 H1).
  - f_equal. exact (NoDup_lookup _ _ _ _ Hc H1 H2).
Qed.

Lemma transportMap_step op w :
  transportMap (step op w).2 =
    match op with
    | NewServer id uuid =>
        <[server_sessionId id uuid := own_callbacks (ServerRef (length (servers w)))]>
          (transportMap w)
    | NewClient uuid _ =>
        <[uuid := own_callbacks (ClientRef (length (clients w)))]> (transportMap w)
    | Close e =>
        match connected w e, sessionId w e with
        | Some true, Some id => delete id (transportMap w)
        | _, _ => transportMap w
        end
    | _ => transportMap w
    end.
Proof. destruct op as [| |[]|[]|[]|[]|[]|[]| |]; crush_method. Qed.

Lemma connected_sessionId w e : is_Some (connected w e) ↔ is_Some (sessionId w e).
Proof. destruct e; simpl; by rewrite !fmap_is_Some. Qed.

Lemma registered_lookup w e id :
  sessionId w e = Some id →
  registered w e ↔ transportMap w !! id = Some (own_callbacks e).
Proof.
  intros Hid. unfold registered. split.
  - intros (id' & Hid' & Hreg). congruence.
  - eauto.
Qed.

Lemma transportMap_lookup_frame op w e id :
  NoDup (sessionIds w) →
  (∀ id, minted op = Some id → id ∉ sessionIds w) →
  close_takes_effect e op w = false →
  sessionId w e = Some id →
  transportMap (step op w).2 !! id = transportMap w !! id.
Proof.
  intros Hnd Hfresh Hclose Hid. rewrite transportMap_step.
  destruct op as [sid uuid|uuid srv| | |e'| | | | |]; try done.
  - apply lookup_insert_ne. intros Heq. apply (Hfresh _ eq_refl).
    rewrite Heq. by eapply sessionId_elem.
  - apply lookup_insert_ne. intros Heq. apply (Hfresh _ eq_refl).
    simpl in Heq. rewrite Heq. by eapply sessionId_elem.
  - destruct (connected w e') as [[]|] eqn:Hc; try done.
    destruct (sessionId w e') as [id'|] eqn:Hid'; try done.
    apply lookup_delete_ne. intros ->.
    assert (e' = e) as -> by by eapply sessionId_inj.
    simpl in Hclose. by rewrite !bool_decide_eq_true_2 in Hclose.
Qed.

Lemma registered_step op w e :
  NoDup (sessionIds w) →
  (∀ id, minted op = Some id → id ∉ sessionIds w) →
  registered_if_constructed (step op w).2 e ↔
  close_takes_effect e op w = false ∧ registered_if_constructed w e.
Proof.
  intros Hnd Hfresh. unfold registered_if_constructed.
  destruct (close_takes_effect e op w) eqn:Hclose.
  { (* [e] is closed by [op] *)
    split; [|by intros []]. intros Hreg. exfalso.
    rewrite connected_after_close in Hreg by done.
    destruct Hreg as (id & Hid & Hreg); [eauto|].
    destruct op as [| | | |e'| | | | |]; simpl in *; try done.
    apply andb_true_iff in Hclose as [He Hc]. apply bool_decide_eq_true in He, Hc.
    subst e'. destruct (close_connected e w Hc) as (_ & _ & Hun & Hsid & _).
    rewrite Hsid in Hid. rewrite (Hun id Hid) in Hreg. done. }
  destruct (decide (created_by op w = Some e)) as [Hnew|Hnew].
  { (* [e] is constructed by [op] *)
    split.
    - intros _. split; [done|]. intros Hex. exfalso.
      destruct op; simpl in Hnew; simplify_eq; simpl in Hex;
        apply fmap_is_Some, lookup_lt_is_Some in Hex; lia.
    - intros _ _. unfold registered. rewrite transportMap_step.
      destruct op; simpl in Hnew; simplify_eq.
      + exists (server_sessionId id uuid). split; [|by rewrite lookup_insert_eq].
        unfold_methods; unfold_readers; simpl. by rewrite lookup_snoc_new, decide_True.
      + exists uuid. split; [|by rewrite lookup_insert_eq].
        unfold_methods; unfold_readers; simpl. by rewrite lookup_snoc_new, decide_True. }
  (* any other operation *)
  assert (is_Some (connected (step op w).2 e) ↔ is_Some (connected w e)) as Hex.
  { destruct (start_succeeds e op w) eqn:Hs; [|by rewrite connected_frame].
    rewrite connected_after_start by done. split; [|eauto]. intros _.
    destruct op as [| |e'| | | | | | |]; simpl in Hs; try done.
    apply andb_true_iff in Hs as [He Hr]. apply bool_decide_eq_true in He. subst e'.
    revert Hr. clear. destruct e; crush_method; eauto. }
  rewrite Hex. split; [intros Hreg; split; [done|]|intros [_ Hreg]]; intros Hc;
    specialize (Hreg Hc); apply connected_sessionId in Hc as [id Hid];
    pose proof (sessionId_step op w e id Hid) as Hid';
    rewrite (registered_lookup _ _ _ Hid) in *;
    rewrite (registered_lookup _ _ _ Hid') in *;
    by rewrite (transportMap_lookup_frame op w e id) in *.
Qed.

Lemma NoDup_step op w :
  NoDup (sessionIds w) →
  (∀ id, minted op = Some id → id ∉ sessionIds w) →
  NoDup (sessionIds (step op w).2).
Proof.
  intros Hnd Hfresh. rewrite sessionIds_step.
  destruct (minted op) as [id|]; [|done].
  apply NoDup_cons. split; [|done]. by apply Hfresh.
Qed.

Lemma registered_run ops w e :
  NoDup (sessionIds w) → fresh_ids ops w = true →
  registered_if_constructed (run ops w) e ↔
  happened (close_takes_effect e) ops w = false ∧ registered_if_constructed w e.
Proof.
  revert w. induction ops as [|op ops IH]; intros w Hnd Hfresh; simpl in *.
  { tauto. }
  apply andb_true_iff in Hfresh as [Hop Hfresh].
  assert (∀ id, minted op = Some id → id ∉ sessionIds w) as Hop'.
  { intros id Hid. rewrite Hid in Hop. by apply bool_decide_eq_true in Hop. }
  rewrite IH by (try apply NoDup_step; done).
  rewrite registered_step by done.
  rewrite orb_false_iff. tauto.
Qed.

(** C9, as the code has it. With session identifiers that are unique
    among the transports constructed, a transport has its own entry in the
    registry from its construction on, before any [start()], until the
    first [close()] that finds it connected, and never again after that. *)
Theorem registered_from_construction_until_close ops e :
  fresh_ids ops initial = true →
  is_Some (connected (run ops initial) e) →
  registered (run ops initial) e ↔
  happened (close_takes_effect e) ops initial = false.
Proof.
  intros Hfresh Hex.
  destruct (registered_run ops initial e) as [H1 H2]; [apply NoDup_nil_2|done|].
  split.
  - intros Hreg. apply H1. by intros _.
  - intros Hh. apply H2; [|done]. split; [done|].
    intros Hc. destruct e; simpl in Hc; by destruct Hc.
Qed.

(** ** generateUUID *)

Lemma toString16_value v : HexString.Raw.to_N (toString16 v) 0 = v.
Proof.
  destruct v as [|p]; [reflexivity|].
  unfold toString16. by rewrite HexString.Raw.to_N_of_pos.
Qed.

Lemma toString16_inj v v' : toString16 v = toString16 v' → v = v'.
Proof. intros H. by rewrite <- (toString16_value v), H, toString16_value. Qed.

Lemma nibble_cases (r : N) :
  (r < 16)%N →
  r ∈ [0; 1; 2; 3; 4; 5; 6; 7; 8; 9; 10; 11; 12; 13; 14; 15]%N.
Proof.
  intros Hr. 
  assert (r = N.of_nat (N.to_nat r)) as -> by lia.
  assert (N.to_nat r < 16) as H by lia. revert H. generalize (N.to_nat r). intros n Hn.
  do 16 (destruct n as [|n]; [set_solver|]). lia.
Qed.

Lemma toString16_nibble (r : N) :
  (r < 16)%N → ∃ d, toString16 r = String d "" ∧ is_hex d = true.
Proof.
  intros H%nibble_cases.
  repeat (apply elem_of_cons in H as [->|H]; [eexists; split; reflexivity|]).
  by apply elem_of_nil in H.
Qed.

Lemma low_bits_cases (r : N) : N.land r 3 ∈ [0; 1; 2; 3]%N.
Proof.
  change 3%N with (N.ones 2). rewrite N.land_ones.
  assert (r `mod` 2 ^ 2 < 4)%N as H by (apply N.mod_lt; lia).
  assert (r `mod` 2 ^ 2 < 16)%N as H' by lia.
  apply nibble_cases in H'. revert H H'. generalize (r `mod` 2 ^ 2)%N. intros x H H'.
  repeat (apply elem_of_cons in H' as [->|H']; [set_solver || lia|]).
  by apply elem_of_nil in H'.
Qed.

Lemma toString16_variant (r : N) :
  ∃ d, toString16 (N.lor (N.land r 3) 8) = String d "" ∧ is_variant d = true.
Proof.
  pose proof (low_bits_cases r) as H.
  repeat (apply elem_of_cons in H as [->|H]; [eexists; split; reflexivity|]).
  by apply elem_of_nil in H.
Qed.

Lemma variant_inj (r r' : N) :
  N.lor (N.land r 3) 8 = N.lor (N.land r' 3) 8 → N.land r 3 = N.land r' 3.
Proof.
  pose proof (low_bits_cases r) as H. pose proof (low_bits_cases r') as H'.
  repeat (apply elem_of_cons in H as [->|H]);
    repeat (apply elem_of_cons in H' as [->|H']);
    try (by apply elem_of_nil in H); try (by apply elem_of_nil in H');
    simpl; intros; done.
Qed.

Lemma uuid_digit_char (c : Ascii.ascii) (r : N) :
  c = "x"%char ∨ c = "y"%char → (r < 16)%N →
  ∃ d, uuid_digit c r = String d "" ∧ conforms_at c d.
Proof.
  unfold uuid_digit, conforms_at. intros [-> | ->] Hr; simpl.
  - by apply toString16_nibble.
  - apply toString16_variant.
Qed.

Lemma append_one (d : Ascii.ascii) (s : string) : String d "" +:+ s = String d s.
Proof. reflexivity. Qed.

Lemma replace_xy_conforms template random k :
  (∀ n, (random n < 16)%N) →
  conforms template (replace_xy template random k) = true.
Proof.
  intros Hr. revert k. induction template as [|c t IH]; intros k; simpl; [done|].
  case_decide as Hc.
  - destruct (uuid_digit_char c (random k) Hc (Hr k)) as (d & -> & Hd).
    rewrite append_one. simpl. rewrite IH, andb_true_r. unfold conforms_at in Hd.
    repeat case_decide; done.
  - rewrite IH, andb_true_r. rewrite !decide_False by tauto. by apply bool_decide_eq_true.
Qed.

Lemma conforms_length template out :
  conforms template out = true → String.length out = String.length template.
Proof.
  revert out. induction template as [|c t IH]; intros [|d o]; simpl; try done.
  intros [_ H]%andb_true_iff. by rewrite (IH o).
Qed.

Lemma conforms_get template out n c :
  conforms template out = true → String.get n template = Some c →
  ∃ d, String.get n out = Some d ∧ conforms_at c d.
Proof.
  revert out n. induction template as [|c' t IH]; intros [|d o] n; simpl; try done.
  intros [Hd H]%andb_true_iff. destruct n as [|n].
  - intros [= ->]. exists d. split; [done|]. unfold conforms_at.
    repeat case_decide; try done; by apply bool_decide_eq_true in Hd.
  - by apply IH.
Qed.

(** X1. With every draw of [Math.random() * 16 | 0] in its range, the
    fallback branch of [generateUUID] fills the template character by
    character: the result has 36 characters, hyphens after 8, 13, 18 and 23
    of them, the version digit 4, a variant digit among 8, 9, a, b, and
    lowercase hexadecimal digits elsewhere. In particular it is not empty. *)
Theorem generateUUID_fallback_is_version_4 random :
  (∀ k, (random k < 16)%N) →
  let uuid := generateUUID None random in
  conforms uuid_template uuid = true ∧
  String.length uuid = 36 ∧
  (∀ n, n ∈ [8; 13; 18; 23] → String.get n uuid = Some "-"%char) ∧
  String.get 14 uuid = Some "4"%char ∧
  (∃ d, String.get 19 uuid = Some d ∧ d ∈ String.list_ascii_of_string "89ab") ∧
  uuid ≠ "".
Proof.
  intros Hr uuid. subst uuid. unfold generateUUID.
  pose proof (replace_xy_conforms uuid_template random 0 Hr) as Hc.
  pose proof (conforms_length _ _ Hc) as Hlen.
  split_and!; try done.
  - intros n Hn.
    repeat (apply elem_of_cons in Hn as [->|Hn]);
      try (by apply elem_of_nil in Hn);
      match goal with
      | |- String.get ?n _ = _ =>
          by destruct (conforms_get _ _ n "-"%char Hc eq_refl) as (d & -> & ->)
      end.
  - by destruct (conforms_get _ _ 14 "4"%char Hc eq_refl) as (d & -> & ->).
  - destruct (conforms_get _ _ 19 "y"%char Hc eq_refl) as (d & Hd & Hv).
    exists d. split; [done|]. by apply bool_decide_eq_true in Hv.
  - intros Hu. by rewrite Hu in Hlen.
Qed.

Lemma uuid_digit_inj (c : Ascii.ascii) (r r' : N) :
  uuid_digit c r = uuid_digit c r' ↔
  if decide (c = "x"%char) then r = r' else N.land r 3 = N.land r' 3.
Proof.
  unfold uuid_digit. case_decide.
  - split; [apply toString16_inj|by intros ->].
  - split; [intros Hv%toString16_inj; by apply variant_inj|by intros ->].
Qed.

Lemma replace_xy_inj template r r' k :
  (∀ n, (r n < 16)%N) → (∀ n, (r' n < 16)%N) →
  replace_xy template r k = replace_xy template r' k ↔ same_digits template r r' k.
Proof.
  intros Hr Hr'. revert k.
  induction template as [|c t IH]; intros k; simpl; [done|].
  case_decide as Hc.
  - pose proof (uuid_digit_inj c (r k) (r' k)) as Hinj.
    destruct (uuid_digit_char c (r k) Hc (Hr k)) as (d & Hd & _).
    destruct (uuid_digit_char c (r' k) Hc (Hr' k)) as (d' & Hd' & _).
    rewrite Hd, Hd', !append_one in *.
    assert (String d (replace_xy t r (S k)) = String d' (replace_xy t r' (S k)) ↔
            String d "" = String d' "" ∧ same_digits t r r' (S k)) as ->.
    { rewrite <- IH. split; [intros [= -> ->]; done|intros [[= ->] ->]; done]. }
    rewrite Hinj. destruct Hc as [-> | ->]; simpl; done.
  - rewrite !decide_False by tauto. rewrite <- IH.
    split; [by intros [= ->]|by intros ->].
Qed.

(** X2. The fallback branch of [generateUUID] makes 31 draws and loses
    nothing of them but the two high bits of the one that becomes the
    variant digit: two sequences of draws give the same identifier exactly
    when they agree on the 30 draws for an [x] and, in the two low bits, on
    the draw for the [y]. *)
Theorem generateUUID_fallback_injective (r r' : nat → N) :
  (∀ k, (r k < 16)%N) → (∀ k, (r' k < 16)%N) →
  generateUUID None r = generateUUID None r' ↔
  (∀ k, k < 31 → k ≠ 15 → r k = r' k) ∧ N.land (r 15) 3 = N.land (r' 15) 3.
Proof.
  intros Hr Hr'. unfold generateUUID. rewrite replace_xy_inj by done.
  unfold uuid_template. simpl. split.
  - intros H. destruct_and!. split; [|done].
    intros k Hk Hne. do 31 (destruct k as [|k]; [done|]). lia.
  - intros [H H15]. split_and!; try done; apply H; lia.
Qed.

Lemma toString16_nonempty (v : N) : toString16 v ≠ "".
Proof.
  intros H. pose proof (toString16_value v) as Hv. rewrite H in Hv.
  simpl in Hv. subst v. discriminate H.
Qed.

Lemma generateUUID_fallback_nonempty random : generateUUID None random ≠ "".
Proof.
  unfold generateUUID, uuid_template. simpl. unfold uuid_digit. simpl.
  pose proof (toString16_nonempty (random 0)) as H.
  destruct (toString16 (random 0)); done.
Qed.

(** *** The registry by itself *)

(** X3. Registering an identifier twice keeps the second callbacks only:
    the table is as if the first registration had not happened, and a
    dispatch to the identifier is queued for the second callbacks. *)
Theorem register_last_writer_wins id cb1 cb2 m w :
  let w1 := (registry_register id cb1 w).2 in
  let w2 := (registry_register id cb2 w1).2 in
  w2 = (registry_register id cb2 w).2 ∧
  transportMap w2 !! id = Some cb2 ∧
  registry_send id m w2 = (Returned tt, with_timers (λ q, q ++ [(cb2, m)]) w2).
Proof.
  cbv zeta. split_and!.
  - unfold_methods. unfold with_transportMap. simpl. by rewrite insert_insert_eq.
  - unfold_methods. simpl. by rewrite lookup_insert_eq.
  - apply registry_send_present. unfold_methods. simpl. by rewrite lookup_insert_eq.
Qed.

Lemma with_transportMap_id (f : gmap string Callbacks → gmap string Callbacks) w :
  f (transportMap w) = transportMap w → with_transportMap f w = w.
Proof. intros Hf. destruct w. unfold with_transportMap. simpl in *. by rewrite Hf. Qed.

(** X4. [unregister] always returns; of an identifier that is not
    registered it changes nothing, so a second [unregister] is a no-op and
    undoes nothing else; afterwards a dispatch to the identifier throws.
    Unregistering right after registering a free identifier restores the
    table. *)
Theorem unregister_is_idempotent id cb m w :
  let w1 := (registry_unregister id w).2 in
  (registry_unregister id w).1 = Returned tt ∧
  registry_unregister id w1 = (Returned tt, w1) ∧
  registry_send id m w1 = (Thrown (TransportNotFound id), w1) ∧
  (transportMap w !! id = None →
     w1 = w ∧ (registry_unregister id (registry_register id cb w).2).2 = w).
Proof.
  cbv zeta. unfold registry_unregister, registry_register, modify. simpl.
  split_and!; try done.
  - f_equal. apply with_transportMap_id. simpl. by rewrite delete_delete_eq.
  - apply registry_send_absent. simpl. by rewrite lookup_delete_eq.
  - intros Hid. split.
    + apply with_transportMap_id. by apply delete_id.
    + destruct w. unfold with_transportMap. simpl in *.
      by rewrite delete_insert_eq, delete_id.
Qed.

(** X5. An entry registered without an [onmessage] function accepts
    dispatches like any other; the timer fires and does nothing, so the
    message is discarded without an error and without any observer run. *)
Theorem dispatch_to_entry_without_handler id m w :
  transportMap w !! id = Some (mkCallbacks None) →
  let w1 := (registry_send id m w).2 in
  (registry_send id m w).1 = Returned tt ∧
  timers w1 = timers w ++ [(mkCallbacks None, m)] ∧
  (drain w1).1 = Returned tt ∧
  timers (drain w1).2 = [] ∧
  trace (drain w1).2 = trace (drain w).2.
Proof.
  intros Hid. cbv zeta. rewrite (registry_send_present _ _ _ _ Hid). simpl.
  destruct (drain_spec w) as (_ & _ & -> & _).
  destruct (drain_spec (with_timers (λ q, q ++ [(mkCallbacks None, m)]) w))
    as (-> & -> & -> & _).
  simpl. rewrite flat_map_app. simpl. by rewrite !app_nil_r.
Qed.

(** *** Sending *)

(** X6. A [send] that returns has done one thing: it has set a timer that
    holds the message as it was given and the callbacks registered, at the
    time of the call, under the identifier of the peer. Registry, objects,
    pending timers and observer log are as before. *)
Theorem successful_send_only_sets_a_timer e m w :
  (send e m w).1 = Returned tt →
  ∃ id target,
    peerId_of w e = Some id ∧ transportMap w !! id = Some target ∧
    (send e m w).2 = with_timers (λ q, q ++ [(target, m)]) w.
Proof. destruct e; crush_method; eauto. Qed.

(** *** Before and without a handshake *)

Lemma no_handshake_step op w i :
  clientId_of w i = None → handshake_with i op w = false →
  clientId_of (step op w).2 i = None.
Proof.
  destruct op as [| |[k|j]|[]|[]|[]|[]|[]| |]; unfold handshake_with;
    crush_method; finish.
Qed.

Lemma no_handshake_run ops w i :
  clientId_of w i = None → happened (handshake_with i) ops w = false →
  clientId_of (run ops w) i = None.
Proof.
  revert w. induction ops as [|op ops IH]; intros w Hw Hops; simpl in *; [done|].
  apply orb_false_iff in Hops as [Hop Hops].
  apply IH; [|done]. by apply no_handshake_step.
Qed.

(** X7. A server that has been started, and with which no client has
    completed the handshake, has no client identifier, and its [send]
    throws "No client connected" and changes nothing. *)
Theorem server_send_before_handshake ops i m :
  let w := run ops initial in
  connected w (ServerRef i) = Some true →
  happened (handshake_with i) ops initial = false →
  clientId_of w i = None ∧
  server_send i m w = (Thrown NoClientConnected, w) ∧
  error_kind NoClientConnected = Some PeerUnavailableKind.
Proof.
  intros w Hc Hops.
  assert (clientId_of w i = None) as Hid by by apply no_handshake_run.
  split_and!; try done.
  revert Hc Hid. generalize w. clear. crush_method.
Qed.

Lemma handle_step op w j :
  is_Some (connected w (ClientRef j)) →
  serverTransport_of (step op w).2 j = serverTransport_of w j.
Proof.
  intros [b Hb].
  destruct op as [| |[]|[]|[]|[]|[]|[]| |]; crush_method; finish.
  by rewrite lookup_ge_None_2 in Hb by lia.
Qed.

Lemma handle_run ops w j :
  is_Some (connected w (ClientRef j)) →
  serverTransport_of (run ops w) j = serverTransport_of w j.
Proof.
  revert w. induction ops as [|op ops IH]; intros w Hex; simpl; [done|].
  rewrite IH by by apply step_keeps_objects. by apply handle_step.
Qed.

Lemma start_without_handle j w :
  serverTransport_of w j = None → connected w (ClientRef j) = Some false →
  start (ClientRef j) w = (Thrown NoServerTransportProvided, w).
Proof. crush_method. Qed.

Lemma run_without_handle ops w j :
  serverTransport_of w j = None → connected w (ClientRef j) = Some false →
  connected (run ops w) (ClientRef j) = Some false.
Proof.
  revert w. induction ops as [|op ops IH]; intros w Hh Hc; simpl; [done|].
  apply IH.
  - rewrite handle_step; [done|]. rewrite Hc. eauto.
  - destruct (start_succeeds (ClientRef j) op w) eqn:Hs.
    { destruct op as [| |e'| | | | | | |]; simpl in Hs; try done.
      apply andb_true_iff in Hs as [_ Hr].
      pose proof (start_without_handle j w Hh Hc) as Hst. simpl in Hst.
      by rewrite Hst in Hr. }
    destruct (close_takes_effect (ClientRef j) op w) eqn:Hcl.
    { by rewrite connected_after_close. }
    destruct (decide (created_by op w = Some (ClientRef j))) as [Hn|Hn].
    { by rewrite connected_after_new. }
    by rewrite connected_frame.
Qed.

(** X8. A client constructed without a server transport can never be
    started: whatever is done, its [start()] throws "No server transport
    provided", it stays not connected, and its [send] throws "Not
    connected". *)
Theorem client_without_server_never_connects ops j m w :
  serverTransport_of w j = None → connected w (ClientRef j) = Some false →
  let w' := run ops w in
  connected w' (ClientRef j) = Some false ∧
  start (ClientRef j) w' = (Thrown NoServerTransportProvided, w') ∧
  send (ClientRef j) m w' = (Thrown NotConnected, w') ∧
  error_kind NoServerTransportProvided = Some MissingPeerHandleKind.
Proof.
  intros Hh Hc w'.
  assert (connected w' (ClientRef j) = Some false) as Hc'
    by by apply run_without_handle.
  assert (serverTransport_of w' j = None) as Hh'.
  { subst w'. rewrite handle_run; [done|]. rewrite Hc. eauto. }
  split_and!; try done.
  - by apply start_without_handle.
  - by apply send_not_connected.
Qed.

Lemma started_client_holds_handle j w :
  (start (ClientRef j) w).1 = Returned tt → is_Some (serverTransport_of w j).
Proof. crush_method; eauto. Qed.

Lemma handles_step op w :
  connected_clients_hold_handles w → connected_clients_hold_handles (step op w).2.
Proof.
  unfold connected_clients_hold_handles. intros Hinv j Hc.
  destruct (start_succeeds (ClientRef j) op w) eqn:Hs.
  { destruct op as [| |e'| | | | | | |]; simpl in Hs; try done.
    apply andb_true_iff in Hs as [He Hr]. apply bool_decide_eq_true in He. subst e'.
    assert (is_Some (serverTransport_of w j)) as Hh.
    { apply started_client_holds_handle. simpl.
      destruct (client_start j w) as [[[]|err] w1]; simpl in *; done. }
    rewrite handle_step; [done|].
    destruct Hh as [i Hi]. unfold serverTransport_of in Hi. simpl.
    destruct (clients w !! j); [eauto|done]. }
  destruct (close_takes_effect (ClientRef j) op w) eqn:Hcl.
  { by rewrite connected_after_close in Hc. }
  destruct (decide (created_by op w = Some (ClientRef j))) as [Hn|Hn].
  { by rewrite connected_after_new in Hc. }
  rewrite connected_frame in Hc by done.
  rewrite handle_step; [by apply Hinv|]. rewrite Hc. eauto.
Qed.

Lemma handles_run ops w :
  connected_clients_hold_handles w → connected_clients_hold_handles (run ops w).
Proof.
  revert w. induction ops as [|op ops IH]; intros w Hinv; simpl; [done|].
  by apply IH, handles_step.
Qed.

(** X9. The check for a missing server transport in [send] of the client
    never fires: a client that is connected has passed the same check in
    [start], and the handle is not assigned to afterwards. *)
Theorem client_send_never_misses_its_handle ops j m :
  connected_clients_hold_handles (run ops initial) ∧
  (send (ClientRef j) m (run ops initial)).1 ≠ Thrown NoServerTransportConnected.
Proof.
  assert (connected_clients_hold_handles (run ops (@initial JSONRPCMessage))) as Hinv.
  { apply handles_run. intros k Hk. done. }
  split; [done|].
  specialize (Hinv j). revert Hinv.
  generalize (run ops (@initial JSONRPCMessage)). intros w Hinv.
  destruct (connected w (ClientRef j)) as [[]|] eqn:Hc.
  - destruct (Hinv eq_refl) as [i Hi]. revert Hc Hi. clear. crush_method.
  - revert Hc. clear. crush_method.
  - revert Hc. clear. crush_method.
Qed.

(** *** What the connection flag of the peer does not decide *)

(** X10. A started client reaches its server whether or not the server has
    been started: [send] on the client looks at the client's own flag only,
    and the server is registered from its construction. *)
Theorem client_reaches_server_that_is_not_started i j sid h m w :
  connected w (ClientRef j) = Some true →
  serverTransport_of w j = Some i →
  connected w (ServerRef i) = Some false →
  sessionId w (ServerRef i) = Some sid →
  transportMap w !! sid = Some (own_callbacks (ServerRef i)) →
  onmessage_of w (ServerRef i) = Some h →
  let w1 := (send (ClientRef j) m w).2 in
  (send (ClientRef j) m w).1 = Returned tt ∧
  connected w1 (ServerRef i) = Some false ∧
  trace (drain w1).2 = trace (drain w).2 ++ [OnMessage (ServerRef i) h m].
Proof.
  intros Hc Hh Hs Hsid Hreg Hobs.
  destruct (client_sends_arrive_in_order j i sid h [m] w) as [Hres Htr]; try done.
  cbn [fmap list_fmap results run step] in Hres, Htr.
  injection Hres as Hres. cbv zeta. split_and!; try done.
  revert Hres Hs. clear. crush_method. congruence.
Qed.

Lemma events_of_snoc_other e (ev : @Event JSONRPCMessage) t :
  event_target ev ≠ e → events_of e (t ++ [ev]) = events_of e t.
Proof.
  intros Hne. rewrite events_of_app. unfold events_of at 2.
  rewrite filter_cons_False, filter_nil by done. by rewrite app_nil_r.
Qed.

Lemma close_is_local_frame e e' w :
  e' ≠ e →
  connected (close e w).2 e' = connected w e' ∧
  (∀ i, clientId_of (close e w).2 i = clientId_of w i).
Proof.
  intros Hne.
  destruct e as [i|j], e' as [i'|j']; crush_method; split_and!; intros; finish.
Qed.

(** X11. [close()] is local to the transport it is called on: the
    connection flag, the observers and the observer log of every other
    transport, the client identifier every server has recorded, the server
    handle of every client and the pending timers are as before. *)
Theorem close_is_local e e' w :
  e' ≠ e →
  let w' := (close e w).2 in
  connected w' e' = connected w e' ∧
  onclose_of w' e' = onclose_of w e' ∧
  onmessage_of w' e' = onmessage_of w e' ∧
  events_of e' (trace w') = events_of e' (trace w) ∧
  (∀ i, clientId_of w' i = clientId_of w i) ∧
  (∀ j, serverTransport_of w' j = serverTransport_of w j) ∧
  timers w' = timers w.
Proof.
  intros Hne. cbv zeta.
  destruct e as [i|j], e' as [i'|j']; crush_method;
    split_and!; intros; finish;
    by apply events_of_snoc_other.
Qed.

(** X12. The server is not told when its client closes: it stays
    connected and keeps the identifier of the closed client, and its next
    [send] throws "Transport with ID ... not found" and changes nothing. *)
Theorem server_send_after_client_closed i j cid m w :
  connected w (ServerRef i) = Some true →
  connected w (ClientRef j) = Some true →
  sessionId w (ClientRef j) = Some cid → cid ≠ "" →
  clientId_of w i = Some cid →
  let w' := (close (ClientRef j) w).2 in
  connected w' (ServerRef i) = Some true ∧
  clientId_of w' i = Some cid ∧
  server_send i m w' = (Thrown (TransportNotFound cid), w') ∧
  error_kind (TransportNotFound cid) = Some PeerUnavailableKind.
Proof.
  intros Hs Hc Hid Hne Hcid w'.
  destruct (close_connected (ClientRef j) w Hc) as (_ & _ & Hun & _ & _).
  specialize (Hun cid Hid). fold w' in Hun.
  destruct (close_is_local_frame (ClientRef j) (ServerRef i) w) as (Hs' & Hcid');
    [done|]. specialize (Hcid' i). fold w' in Hs', Hcid'.
  rewrite Hs in Hs'. rewrite Hcid in Hcid'.
  split_and!; try done.
  unfold connected, clientId_of in Hs', Hcid'.
  destruct (servers w' !! i) as [s|] eqn:Hsrv; simpl in Hs', Hcid'; [|done].
  rewrite (server_send_eval i s cid m w') by congruence.
  by apply registry_send_absent.
Qed.

(** X13. The observer a message is handed to is the one installed when
    the timer fires, not the one installed when the message was sent; with
    no observer installed at that time the timer fires without effect and
    without error, and the message is gone. *)
Theorem observer_is_read_when_the_timer_fires tid this m o w :
  transportMap w !! tid = Some (own_callbacks this) →
  is_Some (connected w this) →
  timers w = [] →
  let w1 := (registry_send tid m w).2 in
  let w2 := (set_onmessage this o w1).2 in
  onmessage_of w2 this = o ∧
  (tick w2).1 = Returned tt ∧
  timers (tick w2).2 = [] ∧
  trace (tick w2).2 =
    trace w ++ match o with Some h => [OnMessage this h m] | None => [] end.
Proof.
  intros Htid Hex Hq. cbv zeta.
  rewrite (registry_send_present _ _ _ _ Htid). cbn [snd].
  assert (let w2 := (set_onmessage this o
                       (with_timers (λ q, q ++ [(own_callbacks this, m)]) w)).2 in
          onmessage_of w2 this = o ∧ timers w2 = [(own_callbacks this, m)] ∧
          trace w2 = trace w) as Hw2.
  { cbv zeta. revert Hex Hq. clear.
    destruct this; crush_method; intros; split_and!; finish;
      try (by rewrite Hq); by destruct Hex as [? ?]. }
  cbv zeta in Hw2.
  remember (set_onmessage this o
              (with_timers (λ q, q ++ [(own_callbacks this, m)]) w)).2 as w2 eqn:Heq.
  clear Heq. destruct Hw2 as (Ho & Hq2 & Htr2).
  destruct (tick_cons w2 _ _ Hq2) as (Hr & Ht & Htr & _).
  split_and!; try done.
  rewrite Htr, Htr2. unfold delivery. simpl. rewrite Ho. by destruct o.
Qed.

(** *** What holds of every run *)

Lemma sessionId_run ops w e id :
  sessionId w e = Some id → sessionId (run ops w) e = Some id.
Proof.
  revert w. induction ops as [|op ops IH]; intros w Hid; simpl; [done|].
  by apply IH, sessionId_step.
Qed.

(** X14. The session identifier of a transport is fixed at construction:
    no operation on it or on any other transport changes it, and no
    transport ever goes away. *)
Theorem session_identifier_never_changes ops e id w :
  sessionId w e = Some id →
  sessionId (run ops w) e = Some id ∧ is_Some (connected (run ops w) e).
Proof.
  intros Hid. split; [by apply sessionId_run|].
  apply run_keeps_objects, connected_sessionId. eauto.
Qed.

Lemma registered_new_sessionId op w e :
  created_by op w = Some e →
  sessionId (step op w).2 e = minted op.
Proof.
  destruct op; simpl; intros; simplify_eq; unfold_methods; unfold_readers; simpl;
    by rewrite lookup_snoc_new, decide_True.
Qed.

Lemma entries_step op w :
  entries_belong_to_transports w → entries_belong_to_transports (step op w).2.
Proof.
  unfold entries_belong_to_transports. intros Hinv id target.
  rewrite transportMap_step. intros Hid.
  assert (transportMap w !! id = Some target →
          ∃ e, sessionId (step op w).2 e = Some id ∧ target = own_callbacks e) as Hold.
  { intros Hw. destruct (Hinv id target Hw) as (e & He & ->).
    exists e. split; [by apply sessionId_step|done]. }
  destruct op as [sid uuid|uuid srv| | |e'| | | | |]; try by apply Hold.
  - destruct (decide (server_sessionId sid uuid = id)) as [<-|Hne].
    + rewrite lookup_insert_eq in Hid. injection Hid as <-.
      exists (ServerRef (length (servers w))). split; [|done].
      by rewrite (registered_new_sessionId (NewServer sid uuid) w _ eq_refl).
    + rewrite lookup_insert_ne in Hid by done. by apply Hold.
  - destruct (decide (uuid = id)) as [<-|Hne].
    + rewrite lookup_insert_eq in Hid. injection Hid as <-.
      exists (ClientRef (length (clients w))). split; [|done].
      by rewrite (registered_new_sessionId (NewClient uuid srv) w _ eq_refl).
    + rewrite lookup_insert_ne in Hid by done. by apply Hold.
  - destruct (connected w e') as [[]|]; try by apply Hold.
    destruct (sessionId w e') as [id'|]; try by apply Hold.
    destruct (decide (id' = id)) as [<-|Hne].
    + by rewrite lookup_delete_eq in Hid.
    + rewrite lookup_delete_ne in Hid by done. by apply Hold.
Qed.

Lemma entries_run ops w :
  entries_belong_to_transports w → entries_belong_to_transports (run ops w).
Proof.
  revert w. induction ops as [|op ops IH]; intros w Hinv; simpl; [done|].
  by apply IH, entries_step.
Qed.

(** X15. Whatever has been done with the transports, every entry of the
    registry is the forwarder of a transport that has been constructed and
    that has the key of the entry as its session identifier; so a dispatch
    that is accepted is a message for a transport with that identifier. *)
Theorem registry_entries_belong_to_transports ops id m :
  entries_belong_to_transports (run ops initial) ∧
  ((registry_send id m (run ops initial)).1 = Returned tt →
   ∃ e, sessionId (run ops initial) e = Some id ∧
        (registry_send id m (run ops initial)).2 =
          with_timers (λ q, q ++ [(own_callbacks e, m)]) (run ops initial)).
Proof.
  assert (entries_belong_to_transports (run ops (@initial JSONRPCMessage))) as Hinv.
  { apply entries_run. intros k target Hk. done. }
  split; [done|].
  revert Hinv. generalize (run ops (@initial JSONRPCMessage)). intros w Hinv Hr.
  destruct (transportMap w !! id) as [target|] eqn:Hid.
  - destruct (Hinv id target Hid) as (e & He & ->). exists e. split; [done|].
    by rewrite (registry_send_present _ _ _ _ Hid).
  - by rewrite (registry_send_absent _ _ _ Hid) in Hr.
Qed.

Lemma never_started_never_closed ops w e :
  connected w e ≠ Some true →
  happened (start_succeeds e) ops w = false →
  happened (close_takes_effect e) ops w = false.
Proof.
  revert w. induction ops as [|op ops IH]; intros w Hw Hops; simpl in *; [done|].
  apply orb_false_iff in Hops as [Hop Hops].
  apply orb_false_iff. split.
  - destruct op; simpl; try done.
    apply andb_false_iff. right. by apply bool_decide_eq_false.
  - apply IH; [|done].
    apply (never_started_not_connected [op] w e Hw). simpl. by rewrite Hop.
Qed.

(** X16. A transport that is never started keeps its registry entry for
    good: [close()] on it does nothing, so with unique identifiers it stays
    registered, and reachable by dispatch, through any run in which no
    [start()] on it returns. *)
Theorem never_started_transport_stays_registered ops e :
  fresh_ids ops initial = true →
  is_Some (connected (run ops initial) e) →
  happened (start_succeeds e) ops initial = false →
  connected (run ops initial) e = Some false ∧
  registered (run ops initial) e ∧
  close e (run ops initial) = (Returned tt, run ops initial).
Proof.
  intros Hfresh Hex Hstart.
  assert (connected (@initial JSONRPCMessage) e ≠ Some true) as Hinit by by destruct e.
  assert (connected (run ops initial) e = Some false) as Hc.
  { apply not_started_is_false; [done|]. by apply never_started_not_connected. }
  split_and!; try done.
  - destruct (registered_run ops initial e) as [_ Hreg]; [apply NoDup_nil_2|done|].
    apply Hreg; [|done]. split.
    + by apply never_started_never_closed.
    + intros Hi. destruct e; simpl in Hi; by destruct Hi.
  - by apply close_not_connected.
Qed.

(** *** Starting a pair *)

Lemma server_start_eval i s w :
  servers w !! i = Some s →
  server_start i w =
    if srv_connected s then (Thrown ServerAlreadyStarted, w)
    else (Returned tt, with_servers (alter (srv_set_connected true) i) w).
Proof. crush_method. Qed.

Lemma alter_alter_server (f g : LocalServerTransport → LocalServerTransport)
    (l : list LocalServerTransport) (i : nat) :
  (∀ s, f (g s) = g (f s)) → alter f i (alter g i l) = alter g i (alter f i l).
Proof.
  intros Hfg. rewrite !list_alter_alter_eq. apply list_alter_ext; [|done].
  intros s _. simpl. apply Hfg.
Qed.

Lemma start_pair_eval i j cid w :
  connected w (ServerRef i) = Some false →
  connected w (ClientRef j) = Some false →
  serverTransport_of w j = Some i →
  sessionId w (ClientRef j) = Some cid →
  let server_first := [Start (ServerRef i); Start (ClientRef j)] in
  let client_first := [Start (ClientRef j); Start (ServerRef i)] in
  results server_first w = [Returned tt; Returned tt] ∧
  results client_first w = [Returned tt; Returned tt] ∧
  run server_first w = run client_first w ∧
  connected (run server_first w) (ServerRef i) = Some true ∧
  connected (run server_first w) (ClientRef j) = Some true ∧
  clientId_of (run server_first w) i = Some cid.
Proof.
  intros Hs Hc Hh Hid. cbv zeta. cbn [results run step start].
  unfold connected, serverTransport_of, sessionId, clientId_of in *.
  destruct (servers w !! i) as [s|] eqn:Hsrv; simpl in Hs; [|done].
  destruct (clients w !! j) as [c|] eqn:Hcli; simpl in Hc, Hh, Hid; [|done].
  injection Hs as Hs. injection Hc as Hc. injection Hid as Hid.
  rewrite (server_start_eval i s w Hsrv), Hs. cbn [fst snd].
  rewrite (client_start_eval j c i w Hcli Hc Hh) by eauto. cbn [fst snd].
  rewrite (client_start_eval j c i
             (with_servers (alter (srv_set_connected true) i) w))
    by (simpl; rewrite ?list_lookup_alter_eq, ?Hsrv; simpl; eauto).
  rewrite (server_start_eval i (srv_set_clientId (Some (cli_sessionId c)) s))
    by (simpl; by rewrite list_lookup_alter_eq, Hsrv).
  simpl. rewrite Hs. simpl.
  rewrite !list_lookup_alter_eq, Hsrv, Hcli. simpl. rewrite Hid.
  split_and!; try done.
  unfold with_clients, with_servers. simpl. f_equal.
  by apply alter_alter_server.
Qed.

(** X17. For a constructed pair that is not yet started, the order of the
    two [start()] calls is immaterial: both orders succeed and end in the
    same world, in which both are connected and the server has the
    identifier of the client. *)
Theorem start_order_does_not_matter i j cid w :
  connected w (ServerRef i) = Some false →
  connected w (ClientRef j) = Some false →
  serverTransport_of w j = Some i →
  sessionId w (ClientRef j) = Some cid →
  let server_first := [Start (ServerRef i); Start (ClientRef j)] in
  let client_first := [Start (ClientRef j); Start (ServerRef i)] in
  results server_first w = [Returned tt; Returned tt] ∧
  results client_first w = [Returned tt; Returned tt] ∧
  run server_first w = run client_first w ∧
  connected (run server_first w) (ServerRef i) = Some true ∧
  connected (run server_first w) (ClientRef j) = Some true ∧
  clientId_of (run server_first w) i = Some cid.
Proof. apply start_pair_eval. Qed.

(** *** One identifier, two servers *)

Lemma new_server_eval sid uuid w :
  (step (NewServer sid uuid) w).2 =
    with_transportMap
      (insert (server_sessionId sid uuid) (own_callbacks (ServerRef (length (servers w)))))
      (with_servers
         (λ l, l ++ [mkServer false (server_sessionId sid uuid) None None None None]) w).
Proof. reflexivity. Qed.

(** X18. A server constructed with an identifier that another server
    already has takes over the registry entry: dispatches to the identifier
    go to the second server and the first is no longer registered. The
    entry is removed by the identifier alone, so closing the first server
    leaves the second one connected without an entry, and dispatches to it
    throw. *)
Theorem second_server_takes_over_identifier sid u1 u2 m w :
  sid ≠ "" →
  let a := ServerRef (length (servers w)) in
  let b := ServerRef (S (length (servers w))) in
  let w' := run [NewServer (Some sid) u1; NewServer (Some sid) u2] w in
  (sessionId w' a = Some sid ∧ sessionId w' b = Some sid) ∧
  (registered w' b ∧ ¬ registered w' a) ∧
  registry_send sid m w' =
    (Returned tt, with_timers (λ q, q ++ [(own_callbacks b, m)]) w') ∧
  (let w2 := run [Start a; Start b; Close a] w' in
   results [Start a; Start b; Close a] w' = [Returned tt; Returned tt; Returned tt] ∧
   connected w2 b = Some true ∧
   transportMap w2 !! sid = None ∧
   registry_send sid m w2 = (Thrown (TransportNotFound sid), w2)).
Proof.
  intros Hsid. cbv zeta. cbn [run]. rewrite !new_server_eval.
  assert (server_sessionId (Some sid) u1 = sid ∧ server_sessionId (Some sid) u2 = sid)
    as [-> ->] by (unfold server_sessionId; by rewrite !decide_False).
  set (A := mkServer false sid None None None None).
  set (n := length (servers w)).
  set (w' := with_transportMap _ (with_servers _ (with_transportMap _ _))).
  assert (servers w' = (servers w ++ [A]) ++ [A]) as Hsrv by reflexivity.
  assert (servers w' !! n = Some A) as Ha.
  { rewrite Hsrv, lookup_snoc_new, decide_False by (rewrite length_app; simpl; lia).
    by rewrite lookup_snoc_new, decide_True. }
  assert (servers w' !! S n = Some A) as Hb.
  { rewrite Hsrv, lookup_snoc_new, decide_True; [done|].
    rewrite length_app. simpl. lia. }
  assert (transportMap w' !! sid = Some (own_callbacks (ServerRef (S n)))) as Hreg.
  { subst w'. simpl. rewrite length_app. simpl.
    replace (length (servers w) + 1) with (S n) by (subst n; lia).
    by rewrite lookup_insert_eq. }
  clearbody w' n. clear Hsrv.
  split; [|split; [|split]].
  - simpl. by rewrite Ha, Hb.
  - split.
    + exists sid. simpl. by rewrite Hb.
    + intros (id & Hid & Hreg'). simpl in Hid. rewrite Ha in Hid.
      injection Hid as <-. rewrite Hreg in Hreg'. injection Hreg' as [=]. lia.
  - by apply registry_send_present.
  - cbn [results run step start close].
    rewrite (server_start_eval n A w' Ha). cbn [srv_connected A fst snd].
    set (w1 := with_servers (alter (srv_set_connected true) n) w').
    assert (servers w1 !! n = Some (srv_set_connected true A)) as Ha1.
    { subst w1. cbn [servers with_servers]. by rewrite list_lookup_alter_eq, Ha. }
    assert (servers w1 !! S n = Some A) as Hb1.
    { subst w1. cbn [servers with_servers]. by rewrite list_lookup_alter_ne by lia. }
    clearbody w1.
    rewrite (server_start_eval (S n) A w1 Hb1). cbn [srv_connected A fst snd].
    set (w2 := with_servers (alter (srv_set_connected true) (S n)) w1).
    assert (servers w2 !! n = Some (srv_set_connected true A)) as Ha2.
    { subst w2. cbn [servers with_servers]. by rewrite list_lookup_alter_ne by lia. }
    assert (servers w2 !! S n = Some (srv_set_connected true A)) as Hb2.
    { subst w2. cbn [servers with_servers]. by rewrite list_lookup_alter_eq, Hb1. }
    clearbody w2.
    destruct (close_connected (ServerRef n) w2) as (Hr & _ & Hun & _ & _).
    { simpl. by rewrite Ha2. }
    destruct (close_is_local_frame (ServerRef n) (ServerRef (S n)) w2) as [Hc _].
    { intros [=]. lia. }
    cbn [close] in Hr, Hun, Hc. rewrite Hr.
    specialize (Hun sid). simpl in Hun. rewrite Ha2 in Hun. specialize (Hun eq_refl).
    split_and!; try done.
    + rewrite Hc. simpl. by rewrite Hb2.
    + by apply registry_send_absent.
Qed.

(** *** From construction to delivery *)

Lemma new_client_eval uuid srv w :
  (step (NewClient uuid srv) w).2 =
    with_transportMap
      (insert uuid (own_callbacks (ClientRef (length (clients w)))))
      (with_clients (λ l, l ++ [mkClient false uuid srv None None None]) w).
Proof. reflexivity. Qed.

Lemma constructed_pair sid us uc h w :
  let i := length (servers w) in
  let j := length (clients w) in
  let w0 := run [NewServer sid us; NewClient uc (Some i);
                 SetOnMessage (ClientRef j) (Some h)] w in
  connected w0 (ServerRef i) = Some false ∧
  connected w0 (ClientRef j) = Some false ∧
  serverTransport_of w0 j = Some i ∧
  sessionId w0 (ClientRef j) = Some uc ∧
  registered w0 (ClientRef j) ∧
  onmessage_of w0 (ClientRef j) = Some h.
Proof.
  cbv zeta. cbn [run]. rewrite new_server_eval, new_client_eval.
  cbn [step set_onmessage update_client modify snd].
  unfold registered, connected, serverTransport_of, sessionId, onmessage_of.
  cbn [servers clients transportMap with_servers with_clients with_transportMap].
  rewrite list_lookup_alter_eq, !lookup_snoc_new, !decide_True by done.
  simpl. split_and!; try done.
  exists uc. by rewrite lookup_insert_eq.
Qed.

(** X19. A server, and a client constructed for it under an identifier
    from the fallback branch of [generateUUID], with an observer on the
    client: after the two [start()] calls, in either order, a [send] of the
    server returns and the loop hands the message to the observer of the
    client. This holds in every world and for all draws. *)
Theorem generated_identifier_carries_a_message sid us random h m starts w :
  let i := length (servers w) in
  let j := length (clients w) in
  let w0 := run [NewServer sid us; NewClient (generateUUID None random) (Some i);
                 SetOnMessage (ClientRef j) (Some h)] w in
  let w1 := run starts w0 in
  starts = [Start (ServerRef i); Start (ClientRef j)] ∨
  starts = [Start (ClientRef j); Start (ServerRef i)] →
  results starts w0 = [Returned tt; Returned tt] ∧
  (server_send i m w1).1 = Returned tt ∧
  trace (server_send i m w1).2 = trace w1 ∧
  trace (drain (server_send i m w1).2).2 =
    trace (drain w1).2 ++ [OnMessage (ClientRef j) h m].
Proof.
  pose proof (generateUUID_fallback_nonempty random) as Hne. revert Hne.
  generalize (generateUUID None random). intros uc Hne i j w0 w1 Hstarts.
  destruct (constructed_pair sid us uc h w)
    as (Hs & Hc & Hh & Hid & Hreg & Hobs). fold i j w0 in Hs, Hc, Hh, Hid, Hreg, Hobs.
  clearbody w0.
  destruct (start_pair_eval i j _ w0 Hs Hc Hh Hid) as (Hr1 & Hr2 & _).
  assert (results starts w0 = [Returned tt; Returned tt]) as Hres
    by by destruct Hstarts as [-> | ->].
  split; [done|].
  destruct (started_pair_either_order i j _ w0 starts Hstarts Hres Hh Hid Hreg)
    as (Hs1 & _ & Hid1 & Hcid1 & (id & Hid1' & Hreg1) & Hobs1).
  fold w1 in Hs1, Hid1, Hcid1, Hid1', Hreg1, Hobs1. clearbody w1.
  assert (id = uc) as -> by congruence.
  unfold connected, clientId_of in Hs1, Hcid1.
  destruct (servers w1 !! i) as [s|] eqn:Hsrv; simpl in Hs1, Hcid1; [|done].
  rewrite (server_send_eval i s uc m w1) by congruence.
  rewrite (registry_send_present _ _ _ _ Hreg1). cbn [fst snd].
  split_and!; try done.
  destruct (drain_spec w1) as (_ & _ & -> & _).
  destruct (drain_spec
    (with_timers (λ q, q ++ [(own_callbacks (ClientRef j), m)]) w1))
    as (_ & _ & -> & _).
  simpl. rewrite flat_map_app, app_assoc. f_equal.
  simpl. rewrite (delivery_to (ClientRef j) h); [done|done|].
  change (onmessage_of w1 (ClientRef j) = Some h). congruence.
Qed.

End Properties.

(** ** The sample runs, evaluated

    The scenarios of the test suite on the model: a message each way, and
    closing both transports. *)

Example server_notification_reaches_client :
  trace (drain (run [Send (ServerRef 0) ping] connected_pair)).2 =
    [OnMessage (ClientRef 0) 3 ping].
Proof. reflexivity. Qed.

Example client_request_reaches_server :
  trace (drain (run [Send (ClientRef 0) ping] connected_pair)).2 =
    [OnMessage (ServerRef 0) 1 ping].
Proof. reflexivity. Qed.

Example dispatch_runs_no_observer_by_itself :
  trace (run [Send (ClientRef 0) ping] connected_pair) = [] ∧
  timers (run [Send (ClientRef 0) ping] connected_pair) =
    [(own_callbacks (ServerRef 0), ping)].
Proof. split; reflexivity. Qed.

Example transports_close_properly :
  let w := run [Close (ClientRef 0); Close (ServerRef 0)] connected_pair in
  trace w = [OnClose (ClientRef 0) 4; OnClose (ServerRef 0) 2] ∧
  transportMap w = ∅.
Proof. split; reflexivity. Qed.

Example dispatches_interleaved_with_other_operations :
  let ops := [ Dispatch "server-1" "m1"; Tick; Send (ServerRef 0) "to-client";
               Dispatch "server-1" "m2"; SetOnError (ServerRef 0) (Some 9);
               Send (ClientRef 0) "m3"; Dispatch "server-1" "m4" ] in
  dispatched "server-1" ops = ["m1"; "m2"; "m4"] ∧
  all_accepted (ServerRef 0) ops connected_pair = ["m1"; "m2"; "m3"; "m4"] ∧
  received_by (ServerRef 0) (trace (drain (run ops connected_pair)).2) =
    ["m1"; "m2"; "m3"; "m4"].
Proof. split_and!; reflexivity. Qed.

Example server_send_without_client :
  (step (Send (ServerRef 0) ping)
     (run [NewServer None "server-1"; Start (ServerRef 0)] initial)).1 =
    Thrown NoClientConnected.
Proof. reflexivity. Qed.

Example error_message_of_missing_target :
  error_message (TransportNotFound "client-1") =
    "Transport with ID client-1 not found".
Proof. reflexivity. Qed.

(** ** The theorems at sample runs *)

Lemma server_reaches_client_after_handshake_witness :
  let w1 := (server_send 0 ping connected_pair).2 in
  (server_send 0 ping connected_pair).1 = Returned tt ∧
  trace w1 = trace connected_pair ∧
  timers w1 = timers connected_pair ++ [(own_callbacks (ClientRef 0), ping)] ∧
  trace (drain w1).2 = trace (drain connected_pair).2 ++ [OnMessage (ClientRef 0) 3 ping].
Proof.
  apply (server_reaches_client_after_handshake 0 0 "client-1" 3 ping connected_pair);
    [reflexivity|reflexivity|reflexivity|discriminate|reflexivity| |reflexivity].
  exists "client-1". split; reflexivity.
Defined.

Lemma restart_after_close_counterexample :
  ¬ (∀ (ops : list (@Op string)) (e : Endpoint),
       happened (close_takes_effect e) ops initial = true →
       returned (start e (run ops initial)).1 = false) ∧
  ¬ (∀ (ops : list (@Op string)) (e : Endpoint),
       happened (close_takes_effect e) ops initial = true →
       connected (run ops initial) e ≠ Some true).
Proof.
  split; intros H.
  - (* constructed, started, closed: [start()] returns *)
    discriminate
      (H [NewServer None "server-1"; Start (ServerRef 0); Close (ServerRef 0)]
         (ServerRef 0)).
    reflexivity.
  - (* and the transport is connected again *)
    apply (H restart_ops (ServerRef 0)); reflexivity.
Qed.

Lemma start_fails_exactly_when_connected_witness :
  connected connected_pair (ClientRef 0) = Some true ∧
  (∃ err, start (ClientRef 0) connected_pair = (Thrown err, connected_pair) ∧
          error_kind err = Some AlreadyStartedKind) ∧
  let w' := (close (ClientRef 0) connected_pair).2 in
  connected w' (ClientRef 0) = Some false ∧
  (start (ClientRef 0) w').1 = Returned tt ∧
  connected (start (ClientRef 0) w').2 (ClientRef 0) = Some true.
Proof.
  assert (has_server_handle connected_pair (ClientRef 0)) as Hh.
  { exists 0. split; [reflexivity|]. vm_compute. lia. }
  destruct (start_fails_exactly_when_connected (ClientRef 0) connected_pair Hh)
    as (H1 & _ & H3).
  split; [reflexivity|]. split; [apply H1; reflexivity|apply H3; reflexivity].
Defined.

Lemma dispatch_order_is_delivery_order_witness :
  let ms := ["m1"; "m2"; "m3"] in
  let w' := run (Dispatch "server-1" <$> ms) connected_pair in
  results (Dispatch "server-1" <$> ms) connected_pair = (λ _, Returned tt) <$> ms ∧
  timers w' = timers connected_pair ++ ((λ m, (own_callbacks (ServerRef 0), m)) <$> ms) ∧
  trace w' = trace connected_pair ∧
  trace (drain w').2 = trace (drain connected_pair).2 ++ (OnMessage (ServerRef 0) 1 <$> ms).
Proof.
  apply (dispatch_order_is_delivery_order "server-1" (own_callbacks (ServerRef 0))
           (ServerRef 0) 1 connected_pair); reflexivity.
Defined.

Lemma dispatch_is_deferred_not_dropped_witness :
  transportMap connected_pair !! "client-1" = Some (own_callbacks (ClientRef 0)) ∧
  (registry_send "client-1" ping connected_pair).1 = Returned tt ∧
  trace (registry_send "client-1" ping connected_pair).2 = trace connected_pair ∧
  transportMap connected_pair !! "nobody" = None ∧
  registry_send "nobody" ping connected_pair =
    (Thrown (TransportNotFound "nobody"), connected_pair).
Proof.
  destruct (dispatch_is_deferred_not_dropped "client-1" ping connected_pair) as [_ Hp].
  destruct (Hp (own_callbacks (ClientRef 0))) as (H1 & H2 & _); [reflexivity|].
  destruct (dispatch_is_deferred_not_dropped "nobody" ping connected_pair) as [Ha _].
  split_and!; [reflexivity|exact H1|exact H2|reflexivity|apply Ha; reflexivity].
Defined.

Lemma send_before_start_fails_witness :
  send (ClientRef 0) ping (run demo_setup initial) =
    (Thrown NotConnected, run demo_setup initial) ∧
  error_kind NotConnected = Some NotConnectedKind.
Proof.
  apply (send_before_start_fails demo_setup (ClientRef 0) ping);
    [exists false; reflexivity|reflexivity].
Defined.

Lemma close_fires_observer_once_witness :
  let e := ServerRef 0 in
  results (replicate 3 (Close e)) connected_pair = replicate 3 (Returned tt) ∧
  run (replicate 3 (Close e)) connected_pair = (close e connected_pair).2 ∧
  trace (run (replicate 3 (Close e)) connected_pair) = trace connected_pair ++ [OnClose e 2].
Proof.
  destruct (close_fires_observer_once (ServerRef 0) connected_pair 3)
    as (H1 & H2 & H3 & _); [exists true; reflexivity|lia|].
  destruct (H3 2) as (_ & _ & H4); [reflexivity|reflexivity|].
  split_and!; [exact H1|exact H2|exact H4].
Defined.

Lemma closed_endpoint_is_unreachable_witness :
  let w' := (close (ClientRef 0) connected_pair).2 in
  send (ClientRef 0) ping w' = (Thrown NotConnected, w') ∧
  registry_send "client-1" ping w' = (Thrown (TransportNotFound "client-1"), w').
Proof.
  apply (closed_endpoint_is_unreachable (ClientRef 0) connected_pair "client-1" ping);
    reflexivity.
Defined.

Example close_with_failing_observer :
  let w' := (close_with failing_observer (ServerRef 0) connected_pair).2 in
  (close_with failing_observer (ServerRef 0) connected_pair).1 =
    Thrown (ThrownByObserver "onclose failed") ∧
  connected connected_pair (ServerRef 0) = Some true ∧
  connected w' (ServerRef 0) = Some false ∧
  is_Some (transportMap connected_pair !! "server-1") ∧
  transportMap w' !! "server-1" = None ∧
  trace w' = trace connected_pair ++ [OnClose (ServerRef 0) 2].
Proof. split_and!; try reflexivity. by eexists. Qed.

Lemma close_fails_after_its_side_effects_counterexample :
  ¬ (∀ (outcome : Handler → Completion unit) (e : Endpoint) (w : @World string) err,
       (close_with outcome e w).1 = Thrown err →
       let w' := (close_with outcome e w).2 in
       w' = w ∧ connected w' e = connected w e ∧ peerId_of w' e = peerId_of w e ∧
       transportMap w' = transportMap w ∧ timers w' = timers w).
Proof.
  intros H.
  destruct (H failing_observer (ServerRef 0) connected_pair
              (ThrownByObserver "onclose failed")) as (_ & Hflag & _); [reflexivity|].
  discriminate Hflag.
Qed.

Lemma failure_leaves_state_unchanged_except_close_witness :
  (let w' := (step (Send (ServerRef 0) ping) constructed).2 in
   (step (Send (ServerRef 0) ping) constructed).1 = Thrown NotConnected ∧
   w' = constructed ∧ connected w' (ServerRef 0) = connected constructed (ServerRef 0) ∧
   peerId_of w' (ServerRef 0) = peerId_of constructed (ServerRef 0) ∧
   transportMap w' = transportMap constructed ∧ timers w' = timers constructed) ∧
  (let w' := (close_with failing_observer (ServerRef 0) connected_pair).2 in
   ∃ h id,
     connected connected_pair (ServerRef 0) = Some true ∧
     onclose_of connected_pair (ServerRef 0) = Some h ∧
     failing_observer h = Thrown (ThrownByObserver "onclose failed") ∧
     sessionId connected_pair (ServerRef 0) = Some id ∧
     w' = (close (ServerRef 0) connected_pair).2 ∧
     connected w' (ServerRef 0) = Some false ∧
     transportMap w' = delete id (transportMap connected_pair) ∧
     peerId_of w' (ServerRef 0) = peerId_of connected_pair (ServerRef 0) ∧
     timers w' = timers connected_pair ∧
     trace w' = trace connected_pair ++ [OnClose (ServerRef 0) h] ∧
     w' ≠ connected_pair).
Proof.
  split.
  - split; [reflexivity|].
    apply (proj1 (failure_leaves_state_unchanged_except_close (ServerRef 0) ping
                    failing_observer constructed)
             (Send (ServerRef 0) ping) NotConnected);
      [constructor 2; constructor 1|reflexivity].
  - apply (proj1 (proj2 (failure_leaves_state_unchanged_except_close (ServerRef 0) ping
                           failing_observer connected_pair))
             (ThrownByObserver "onclose failed"));
      [by eexists|reflexivity].
Defined.

Lemma registered_exactly_while_connected_counterexample :
  ¬ (∀ (ops : list (@Op string)) (e : Endpoint),
       fresh_ids ops initial = true →
       registered (run ops initial) e → connected (run ops initial) e = Some true) ∧
  ¬ (∀ (ops : list (@Op string)) (e : Endpoint),
       fresh_ids ops initial = true →
       connected (run ops initial) e = Some true → registered (run ops initial) e).
Proof.
  split; intros H.
  - (* constructed, not started: registered *)
    discriminate (H [NewServer None "server-1"] (ServerRef 0)); [reflexivity|].
    exists "server-1". split; reflexivity.
  - (* started, closed, started again: connected, not registered *)
    destruct (H restart_ops (ServerRef 0)) as (id & Hid & Hreg);
      [reflexivity|reflexivity|].
    injection Hid as <-. discriminate Hreg.
Qed.

Lemma registered_from_construction_until_close_witness :
  (registered constructed (ClientRef 0) ↔
   happened (close_takes_effect (ClientRef 0)) demo_setup initial = false) ∧
  happened (close_takes_effect (ClientRef 0)) demo_setup initial = false.
Proof.
  split; [|reflexivity].
  apply (registered_from_construction_until_close demo_setup (ClientRef 0));
    [reflexivity|exists false; reflexivity].
Defined.

Lemma latest_handshake_wins_witness :
  let w' := run [Start (ClientRef 0); Start (ClientRef 1)] two_clients in
  clientId_of w' 0 = Some "client-2" ∧
  ∀ ms,
    let w2 := run (Send (ServerRef 0) <$> ms) w' in
    results (Send (ServerRef 0) <$> ms) w' = (λ _, Returned tt) <$> ms ∧
    timers w2 = timers w' ++ ((λ m, (own_callbacks (ClientRef 1), m)) <$> ms) ∧
    events_of (ClientRef 0) (trace (drain w2).2) =
      events_of (ClientRef 0) (trace (drain w').2) ∧
    (∀ h2, onmessage_of w' (ClientRef 1) = Some h2 →
       trace (drain w2).2 = trace (drain w').2 ++ (OnMessage (ClientRef 1) h2 <$> ms)).
Proof.
  destruct (latest_handshake_wins 0 0 1 "client-1" "client-2" two_clients)
    as [H1 H2]; [reflexivity|reflexivity|reflexivity|reflexivity|discriminate|reflexivity|].
  split; [exact H1|].
  destruct H2 as [_ H2]; [reflexivity|discriminate|].
  apply H2. exists "client-2". split; reflexivity.
Defined.

(** ** The further theorems at sample runs *)

Example generateUUID_fallback_sample :
  generateUUID None sample_draws = "01234567-89ab-4cde-b012-3456789abcde".
Proof. reflexivity. Qed.

Lemma generateUUID_fallback_is_version_4_witness :
  let uuid := generateUUID None sample_draws in
  conforms uuid_template uuid = true ∧
  String.length uuid = 36 ∧
  (∀ n, n ∈ [8; 13; 18; 23] → String.get n uuid = Some "-"%char) ∧
  String.get 14 uuid = Some "4"%char ∧
  (∃ d, String.get 19 uuid = Some d ∧ d ∈ String.list_ascii_of_string "89ab") ∧
  uuid ≠ "".
Proof.
  apply (generateUUID_fallback_is_version_4 sample_draws).
  intros k. unfold sample_draws. pose proof (Nat.mod_upper_bound k 16). lia.
Defined.

Lemma generateUUID_fallback_injective_witness :
  generateUUID None sample_draws = generateUUID None other_draws ↔
  (∀ k, k < 31 → k ≠ 15 → sample_draws k = other_draws k) ∧
  N.land (sample_draws 15) 3 = N.land (other_draws 15) 3.
Proof.
  apply (generateUUID_fallback_injective sample_draws other_draws).
  - intros k. unfold sample_draws. pose proof (Nat.mod_upper_bound k 16). lia.
  - intros k. unfold other_draws. pose proof (Nat.mod_upper_bound (k + 7) 16). lia.
Defined.

Lemma register_last_writer_wins_witness :
  let w1 := (registry_register "client-1" (own_callbacks (ClientRef 0))
               (@initial string)).2 in
  let w2 := (registry_register "client-1" (own_callbacks (ServerRef 0)) w1).2 in
  w2 = (registry_register "client-1" (own_callbacks (ServerRef 0)) initial).2 ∧
  transportMap w2 !! "client-1" = Some (own_callbacks (ServerRef 0)) ∧
  registry_send "client-1" ping w2 =
    (Returned tt, with_timers (λ q, q ++ [(own_callbacks (ServerRef 0), ping)]) w2).
Proof.
  apply (register_last_writer_wins "client-1" (own_callbacks (ClientRef 0))
           (own_callbacks (ServerRef 0)) ping (@initial string)).
Defined.

Lemma unregister_is_idempotent_witness :
  transportMap connected_pair !! "nobody" = None ∧
  (registry_unregister "nobody" connected_pair).2 = connected_pair ∧
  (registry_unregister "nobody"
     (registry_register "nobody" (own_callbacks (ServerRef 0)) connected_pair).2).2 =
    connected_pair.
Proof.
  destruct (unregister_is_idempotent "nobody" (own_callbacks (ServerRef 0)) ping
              connected_pair) as (_ & _ & _ & H).
  split; [reflexivity|]. apply H. reflexivity.
Defined.

Lemma dispatch_to_entry_without_handler_witness :
  let w1 := (registry_send "bare" ping bare_registry).2 in
  (registry_send "bare" ping bare_registry).1 = Returned tt ∧
  timers w1 = timers bare_registry ++ [(mkCallbacks None, ping)] ∧
  (drain w1).1 = Returned tt ∧
  timers (drain w1).2 = [] ∧
  trace (drain w1).2 = trace (drain bare_registry).2.
Proof.
  apply (dispatch_to_entry_without_handler "bare" ping bare_registry). reflexivity.
Defined.

Lemma successful_send_only_sets_a_timer_witness :
  ∃ id target,
    peerId_of connected_pair (ClientRef 0) = Some id ∧
    transportMap connected_pair !! id = Some target ∧
    (send (ClientRef 0) ping connected_pair).2 =
      with_timers (λ q, q ++ [(target, ping)]) connected_pair.
Proof.
  apply (successful_send_only_sets_a_timer (ClientRef 0) ping connected_pair).
  reflexivity.
Defined.

Lemma server_send_before_handshake_witness :
  let w := run [NewServer None "server-1"; NewClient "client-1" (Some 0);
                Start (ServerRef 0)] (@initial string) in
  clientId_of w 0 = None ∧
  server_send 0 ping w = (Thrown NoClientConnected, w) ∧
  error_kind NoClientConnected = Some PeerUnavailableKind.
Proof.
  apply (server_send_before_handshake
           [NewServer None "server-1"; NewClient "client-1" (Some 0);
            Start (ServerRef 0)] 0 ping); reflexivity.
Defined.

Lemma client_without_server_never_connects_witness :
  let w' := run [Start (ClientRef 0); Close (ClientRef 0); Start (ClientRef 0)]
              orphan_client in
  connected w' (ClientRef 0) = Some false ∧
  start (ClientRef 0) w' = (Thrown NoServerTransportProvided, w') ∧
  send (ClientRef 0) ping w' = (Thrown NotConnected, w') ∧
  error_kind NoServerTransportProvided = Some MissingPeerHandleKind.
Proof.
  apply (client_without_server_never_connects
           [Start (ClientRef 0); Close (ClientRef 0); Start (ClientRef 0)]
           0 ping orphan_client); reflexivity.
Defined.

Lemma client_send_never_misses_its_handle_witness :
  (send (ClientRef 0) ping (run demo_connect initial)).1 ≠
    Thrown NoServerTransportConnected.
Proof.
  apply (client_send_never_misses_its_handle demo_connect 0 ping).
Defined.

Lemma client_reaches_server_that_is_not_started_witness :
  let w1 := (send (ClientRef 0) ping client_started_only).2 in
  (send (ClientRef 0) ping client_started_only).1 = Returned tt ∧
  connected w1 (ServerRef 0) = Some false ∧
  trace (drain w1).2 =
    trace (drain client_started_only).2 ++ [OnMessage (ServerRef 0) 1 ping].
Proof.
  apply (client_reaches_server_that_is_not_started 0 0 "server-1" 1 ping
           client_started_only); reflexivity.
Defined.

Lemma close_is_local_witness :
  let w' := (close (ClientRef 0) connected_pair).2 in
  connected w' (ServerRef 0) = Some true ∧
  clientId_of w' 0 = Some "client-1" ∧
  events_of (ServerRef 0) (trace w') = [] ∧
  timers w' = [].
Proof.
  destruct (close_is_local (ClientRef 0) (ServerRef 0) connected_pair)
    as (H1 & _ & _ & H4 & H5 & _ & H7); [discriminate|].
  split_and!; [rewrite H1|rewrite H5|rewrite H4|rewrite H7]; reflexivity.
Defined.

Lemma server_send_after_client_closed_witness :
  let w' := (close (ClientRef 0) connected_pair).2 in
  connected w' (ServerRef 0) = Some true ∧
  clientId_of w' 0 = Some "client-1" ∧
  server_send 0 ping w' = (Thrown (TransportNotFound "client-1"), w') ∧
  error_kind (TransportNotFound "client-1") = Some PeerUnavailableKind.
Proof.
  apply (server_send_after_client_closed 0 0 "client-1" ping connected_pair);
    [reflexivity|reflexivity|reflexivity|discriminate|reflexivity].
Defined.

Lemma observer_is_read_when_the_timer_fires_witness :
  let w1 := (registry_send "client-1" ping connected_pair).2 in
  let w2 := (set_onmessage (ClientRef 0) (Some 8) w1).2 in
  onmessage_of w2 (ClientRef 0) = Some 8 ∧
  (tick w2).1 = Returned tt ∧
  timers (tick w2).2 = [] ∧
  trace (tick w2).2 = trace connected_pair ++ [OnMessage (ClientRef 0) 8 ping].
Proof.
  apply (observer_is_read_when_the_timer_fires "client-1" (ClientRef 0) ping (Some 8)
           connected_pair); [reflexivity|exists true; reflexivity|reflexivity].
Defined.

Lemma session_identifier_never_changes_witness :
  let ops := [Start (ClientRef 0); Send (ClientRef 0) ping; Close (ClientRef 0);
              Start (ClientRef 0)] in
  sessionId (run ops constructed) (ClientRef 0) = Some "client-1" ∧
  is_Some (connected (run ops constructed) (ClientRef 0)).
Proof.
  apply (session_identifier_never_changes
           [Start (ClientRef 0); Send (ClientRef 0) ping; Close (ClientRef 0);
            Start (ClientRef 0)] (ClientRef 0) "client-1" constructed).
  reflexivity.
Defined.

Lemma registry_entries_belong_to_transports_witness :
  ∃ e, sessionId (run demo_connect initial) e = Some "client-1" ∧
       (registry_send "client-1" ping (run demo_connect initial)).2 =
         with_timers (λ q, q ++ [(own_callbacks e, ping)]) (run demo_connect initial).
Proof.
  apply (registry_entries_belong_to_transports demo_connect "client-1" ping).
  reflexivity.
Defined.

Lemma never_started_transport_stays_registered_witness :
  let ops := demo_setup ++ [Close (ClientRef 0); Close (ClientRef 0)] in
  connected (run ops initial) (ClientRef 0) = Some false ∧
  registered (run ops initial) (ClientRef 0) ∧
  close (ClientRef 0) (run ops initial) = (Returned tt, run ops initial).
Proof.
  apply (never_started_transport_stays_registered
           (demo_setup ++ [Close (ClientRef 0); Close (ClientRef 0)]) (ClientRef 0));
    [reflexivity|exists false; reflexivity|reflexivity].
Defined.

Lemma start_order_does_not_matter_witness :
  run [Start (ServerRef 0); Start (ClientRef 0)] constructed =
    run [Start (ClientRef 0); Start (ServerRef 0)] constructed ∧
  clientId_of (run [Start (ServerRef 0); Start (ClientRef 0)] constructed) 0 =
    Some "client-1".
Proof.
  destruct (start_order_does_not_matter 0 0 "client-1" constructed)
    as (_ & _ & H3 & _ & _ & H6); [reflexivity..|].
  split; [exact H3|exact H6].
Defined.

Lemma second_server_takes_over_identifier_witness :
  let w' := run [NewServer (Some "shared") "u1"; NewServer (Some "shared") "u2"]
              (@initial string) in
  (registered w' (ServerRef 1) ∧ ¬ registered w' (ServerRef 0)) ∧
  let w2 := run [Start (ServerRef 0); Start (ServerRef 1); Close (ServerRef 0)] w' in
  connected w2 (ServerRef 1) = Some true ∧
  registry_send "shared" ping w2 = (Thrown (TransportNotFound "shared"), w2).
Proof.
  destruct (second_server_takes_over_identifier "shared" "u1" "u2" ping
              (@initial string)) as (_ & H2 & _ & _ & H4 & _ & H6); [discriminate|].
  split; [exact H2|]. split; [exact H4|exact H6].
Defined.

Lemma generated_identifier_carries_a_message_witness :
  let w0 := run [NewServer None "server-1";
                 NewClient (generateUUID None sample_draws) (Some 0);
                 SetOnMessage (ClientRef 0) (Some 3)] (@initial string) in
  let w1 := run [Start (ClientRef 0); Start (ServerRef 0)] w0 in
  (server_send 0 ping w1).1 = Returned tt ∧
  trace (drain (server_send 0 ping w1).2).2 =
    trace (drain w1).2 ++ [OnMessage (ClientRef 0) 3 ping].
Proof.
  destruct (generated_identifier_carries_a_message None "server-1" sample_draws 3
              ping [Start (ClientRef 0); Start (ServerRef 0)] (@initial string))
    as (_ & H2 & _ & H4); [right; reflexivity|].
  split; [exact H2|exact H4].
Defined.
